(** * Overview.py: streaming aggregation of a file inventory

    A shallow embedding of [src/Overview.py] and the properties of its
    aggregation engine.

    Conventions of the embedding.
    - A Python [str] is a [string]; a character is a code point below 256.
      Inside a Rocq string literal a backslash stands for itself, so
      ["\\host"] has two leading backslashes.
    - A Python [int] is a [Z] (sizes, counters) or a [nat] (line numbers).
    - [csv.reader] is outside the model: the input is the list of rows it
      yields, the header row first.
    - [folder_data], a [defaultdict], is an association list in insertion
      order (the order [.items()] walks it when the report is written); the
      ['subfolders'] member of a bucket, a Python [set], is a [gset string].
    - [write_log] appends to a file; the error log is the list of entries
      written to it, oldest first.  The process log only carries wall-clock
      texts and is left out.
    - A binary64 is a pair [(m, e)] of integers standing for [m * 2^e].
    - Of what the [try] of [process_csv] can catch the model has the
      [OverflowError] of line 66; failures of the file system are left
      out. *)

From Stdlib Require Import ZArith String Ascii List Bool Lia.
From stdpp Require Import gmap strings list.

Open Scope Z_scope.

(** ** Python string primitives *)

Module Py.

(** [c in s] for a one-character [c]. *)
Fixpoint contains (c : ascii) (s : string) : bool :=
  match s with
  | EmptyString => false
  | String a s' => if Ascii.eqb a c then true else contains c s'
  end.

(** [str.isspace] on one code point below 256: TAB..CR, FS..US, SPACE,
    NEL (0x85) and NBSP (0xA0). *)
Definition isspace (c : ascii) : bool :=
  let n := nat_of_ascii c in
  ((9 <=? n) && (n <=? 13) || (28 <=? n) && (n <=? 32)
   || (n =? 133) || (n =? 160))%nat.

(** [\d] of [re] on one code point below 256: the digits 0..9. *)
Definition isdigit (c : ascii) : bool :=
  let n := nat_of_ascii c in ((48 <=? n) && (n <=? 57))%nat.

Fixpoint lstrip (p : ascii -> bool) (s : string) : string :=
  match s with
  | EmptyString => EmptyString
  | String a s' => if p a then lstrip p s' else s
  end.

Fixpoint rstrip (p : ascii -> bool) (s : string) : string :=
  match s with
  | EmptyString => EmptyString
  | String a s' =>
      match rstrip p s' with
      | EmptyString => if p a then EmptyString else String a EmptyString
      | r => String a r
      end
  end.

(** [s.strip()] *)
Definition strip (s : string) : string := rstrip isspace (lstrip isspace s).

(** [s.strip(c)] for a one-character [c]. *)
Definition strip_char (c : ascii) (s : string) : string :=
  rstrip (Ascii.eqb c) (lstrip (Ascii.eqb c) s).

(** [s.split(sep)] for a one-character [sep]: never the empty list. *)
Fixpoint split (sep : ascii) (s : string) : list string :=
  match s with
  | EmptyString => [EmptyString]
  | String a s' =>
      if Ascii.eqb a sep then EmptyString :: split sep s'
      else match split sep s' with
           | [] => [String a EmptyString]
           | h :: t => String a h :: t
           end
  end.

(** [sep.join(l)] *)
Definition join (sep : string) (l : list string) : string :=
  String.concat sep l.

(** Truth value of a string: [not s] is [negb (truthy s)]. *)
Definition truthy (s : string) : bool :=
  match s with EmptyString => false | _ => true end.

(** [re.fullmatch(r'\d+', s)] is not [None]. *)
Fixpoint all_digits (s : string) : bool :=
  match s with
  | EmptyString => true
  | String a s' => isdigit a && all_digits s'
  end.

Definition fullmatch_digits (s : string) : bool :=
  truthy s && all_digits s.

Definition digit_value (c : ascii) : Z := Z.of_nat (nat_of_ascii c) - 48.

Fixpoint int_acc (acc : Z) (s : string) : Z :=
  match s with
  | EmptyString => acc
  | String a s' => int_acc (10 * acc + digit_value a) s'
  end.

(** [int(s)] for [s] matching [\d+].  CPython refuses, with [ValueError],
    more than [max_str_digits] digits ([sys.get_int_max_str_digits()]:
    4300 by default, 0 when the limit is off or the interpreter predates
    it); the check only runs above 640 digits. *)
Definition int (max_str_digits : nat) (s : string) : option Z :=
  let digits := String.length s in
  if ((640 <? digits) && (0 <? max_str_digits)
      && (max_str_digits <? digits))%nat
  then None
  else Some (int_acc 0 s).

(** [num], an int with [0 <= num], rounded to 53 significant bits, ties
    to even: [(m, shift)] for [m * 2^shift]. *)
Definition round_53 (num : Z) : Z * Z :=
  let shift := Z.max 0 (Z.log2 num - 52) in
  let q := num / 2 ^ shift in
  let r := num mod 2 ^ shift in
  if shift =? 0 then (q, shift)
  else if (2 ^ (shift - 1) <? r) || ((2 ^ (shift - 1) =? r) && Z.odd q)
       then (q + 1, shift)
       else (q, shift).

(** [num / 2**k] for ints [0 <= num], [0 <= k]: the binary64 nearest to
    the quotient, ties to even, that is [num] rounded to 53 significant
    bits and scaled; [None] is the [OverflowError] raised when that is
    [2^1024] or more. *)
Definition truediv_pow2 (num k : Z) : option (Z * Z) :=
  let '(m, shift) := round_53 num in
  if 2 ^ (1024 + k) <=? m * 2 ^ shift then None else Some (m, shift - k).

(** The number of hundredths nearest to the rational [num / den], ties to
    the even one, for [0 <= num] and [0 < den]: the rounding step of
    [round_2], which applies it to the exact value of a binary64. *)
Definition nearest_hundredth (num den : Z) : Z :=
  let q := (100 * num) / den in
  let r := (100 * num) mod den in
  if 2 * r <? den then q
  else if den <? 2 * r then q + 1
  else if Z.even q then q else q + 1.

(** [round(x, 2)] for a binary64 [x = m * 2^e], [0 <= m]: the decimal of
    two places nearest to the exact value of [x], ties to even, in
    hundredths.  What [round] returns is the binary64 nearest to that
    decimal. *)
Definition round_2 (x : Z * Z) : Z :=
  let '(m, e) := x in
  if 0 <=? e then 100 * m * 2 ^ e else nearest_hundredth m (2 ^ (- e)).

(** [l[:-1]] and [l.pop()] leave [removelast l]; [l[a:b]] with
    [0 <= a <= b]. *)
Definition slice {A} (a b : nat) (l : list A) : list A :=
  take (b - a) (drop a l).

End Py.

Definition backslash : ascii := "\"%char.
Definition period : ascii := "."%char.
Definition dquote : ascii := Ascii.ascii_of_nat 34.
Definition squote : ascii := "'"%char.

(** ** Data model *)

(** A row as [csv.reader] yields it. *)
Definition Row : Type := list string.

(** [folder_key = (drive, top_level_folder)] *)
Definition FolderKey : Type := (string * string)%type.

(** One value of [folder_data]:
    [{'size': 0, 'subfolders': set(), 'files': 0}] when created. *)
Module Bucket.
Record t : Type := mk { size : Z; subfolders : gset string; files : Z }.

Definition default : t := {| size := 0; subfolders := ∅; files := 0 |}.

(** [b['subfolders'].update(l)] *)
Definition update_subfolders (l : list string) (b : t) : t :=
  {| size := size b; subfolders := subfolders b ∪ list_to_set l;
     files := files b |}.

(** [b['size'] += n] *)
Definition add_size (n : Z) (b : t) : t :=
  {| size := size b + n; subfolders := subfolders b; files := files b |}.

(** [b['files'] += 1] *)
Definition add_file (b : t) : t :=
  {| size := size b; subfolders := subfolders b; files := files b + 1 |}.
End Bucket.

Definition FolderData : Type := list (FolderKey * Bucket.t).

(** [folder_data[key]] followed by an in-place change [f] of the bucket:
    the [defaultdict] appends a fresh bucket when the key is missing. *)
Fixpoint on_bucket (f : Bucket.t -> Bucket.t) (key : FolderKey)
    (folder_data : FolderData) : FolderData :=
  match folder_data with
  | [] => [(key, f Bucket.default)]
  | (k, b) :: rest =>
      if decide (k = key) then (k, f b) :: rest
      else (k, b) :: on_bucket f key rest
  end.

(** Read-only lookup, [folder_data.get(key)]. *)
Fixpoint bucket_of (key : FolderKey) (folder_data : FolderData)
    : option Bucket.t :=
  match folder_data with
  | [] => None
  | (k, b) :: rest => if decide (k = key) then Some b else bucket_of key rest
  end.

(** The three counters of a key, those of the default bucket when the key
    has none yet. *)
Definition size_of (key : FolderKey) (fd : FolderData) : Z :=
  Bucket.size (default Bucket.default (bucket_of key fd)).
Definition files_of (key : FolderKey) (fd : FolderData) : Z :=
  Bucket.files (default Bucket.default (bucket_of key fd)).
Definition subfolders_of (key : FolderKey) (fd : FolderData) : gset string :=
  Bucket.subfolders (default Bucket.default (bucket_of key fd)).

(** What the [except Exception as e] of [process_chunk] and of
    [process_csv] can catch. *)
Inductive PyException : Type :=
| IndexError     (* row[0] on an empty row *)
| ValueError     (* int() beyond the interpreter's digit limit *)
| OverflowError. (* int / int too large for a float, line 66 *)

(** The lines written to [error_log_file], each with its [line_num]. *)
Inductive Reason : Type :=
| TooFewColumns        (* Too few columns - line skipped. *)
| MissingFullName      (* Missing FullName - row skipped. *)
| FullNameMalformed    (* FullName malformed - row skipped. *)
| Raised (e : PyException).  (* {e} - row skipped. *)

(** A line of the error log: [[SKIPPED] Line {line_num}: {reason}] of
    lines 46, 99, 105 and 140, and the two lines of lines 83-84. *)
Inductive LogEntry : Type :=
| Skipped (line_num : nat) (reason : Reason)
| ErrorOccurred       (* An error occurred. Check the error log ... *)
| ErrorProcessing (e : PyException).  (* [..] Error processing ..: {e} *)

(** [write_log(message, error_log_file)] *)
Definition write_log (message : LogEntry) (error_log : list LogEntry)
    : list LogEntry :=
  error_log ++ [message].

(** The two things a run mutates. *)
Record State : Type := mkState {
  folder_data : FolderData;
  error_log : list LogEntry
}.

(** One data row of the report.  [Data_GB] is the decimal [round] rounds
    to, in hundredths of a GiB, see [Py.round_2]. *)
Record OutputRow : Type := mkOutputRow {
  Server_Name : string;
  Drive : string;
  Top_Level_Folder : string;
  Data_GB : Z;
  Number_of_SubFolders : nat;
  Number_of_Files : Z
}.

(** ** The program *)

Section Overview.

(** The digit limit of the interpreter running the script, see [Py.int]. *)
Variable int_max_str_digits : nat.

(** Lines 92-96: the first field holding a backslash and a period. *)
Fixpoint find_full_name (row : Row) : option string :=
  match row with
  | [] => None
  | part :: rest =>
      if Py.contains backslash part && Py.contains period part
      then Some (Py.strip part)
      else find_full_name rest
  end.

(** Lines 122-127: the first field that is all digits once its quotes are
    stripped; [None] when [int] raises. *)
Fixpoint extract_length (row : Row) : option Z :=
  match row with
  | [] => Some 0
  | part :: rest =>
      let candidate := Py.strip_char squote (Py.strip_char dquote part) in
      if Py.fullmatch_digits candidate
      then Py.int int_max_str_digits candidate
      else extract_length rest
  end.

(** Lines 111-117. *)
Definition folder_key_of (directory : string) (parts : list string)
    : FolderKey :=
  if (2 <=? length parts)%nat
  then ("\\" +:+ nth 0 parts EmptyString +:+ "\" +:+ nth 1 parts EmptyString,
        if (2 <? length parts)%nat then nth 2 parts EmptyString
        else "Not Applicable")
  else (directory, "Not Applicable").

(** Line 131: one cumulative path for each of [parts[3]], [parts[4]], ... *)
Definition generated_subfolders (parts : list string) : list string :=
  map (fun i => Py.join "\" (Py.slice 3 (i + 1) parts))
      (seq 3 (length parts - 3)).

(** Lines 131-133, under [len(parts) > 3]. *)
Definition subfolders_of_parts (parts : list string) : list string :=
  let subfolders := generated_subfolders parts in
  if Py.contains period (List.last parts EmptyString)
  then removelast subfolders
  else subfolders.

(** What lines 92-133 make of a row: either a [continue] or an exception,
    with the reason logged, or the three values the store is updated
    with; [subfolders] is [None] when line 130 skips the update. *)
Inductive Outcome : Type :=
| Rejected (reason : Reason)
| Attributed (folder_key : FolderKey) (length : Z)
    (subfolders : option (list string)).

Definition extract (row : Row) : Outcome :=
  match find_full_name row with
  | None => Rejected MissingFullName
  | Some full_name =>
      if negb (Py.truthy full_name) then Rejected MissingFullName
      else
        let path_parts := Py.split backslash (Py.strip full_name) in
        if (length path_parts <? 3)%nat then Rejected FullNameMalformed
        else
          let directory :=
            Py.strip_char backslash (Py.join "\" (removelast path_parts)) in
          let parts := Py.split backslash directory in
          let folder_key := folder_key_of directory parts in
          match extract_length row with
          | None => Rejected (Raised ValueError)
          | Some length =>
              Attributed folder_key length
                (if (3 <? List.length parts)%nat
                 then Some (subfolders_of_parts parts) else None)
          end
  end.

(** Lines 134-137. *)
Definition store (folder_key : FolderKey) (length : Z)
    (subfolders : option (list string)) (fd : FolderData) : FolderData :=
  let fd :=
    match subfolders with
    | Some l => on_bucket (Bucket.update_subfolders l) folder_key fd
    | None => fd
    end in
  let fd := on_bucket (Bucket.add_size length) folder_key fd in
  on_bucket Bucket.add_file folder_key fd.

(** Lines 89-90; [row[0]] raises on an empty row. *)
Definition learn_server_name (server_name : string) (row : Row)
    : PyException + string :=
  if negb (Py.truthy server_name) || String.eqb server_name "Unknown"
  then match row with
       | [] => inl IndexError
       | first :: _ => inr (Py.strip first)
       end
  else inr server_name.

(** The body of the loop of [process_chunk] on one [(line_num, row)]:
    the local [server_name] and the state go in and come out. *)
Definition process_row (acc : string * State) (item : nat * Row)
    : string * State :=
  let '(server_name, st) := acc in
  let '(line_num, row) := item in
  let skip server_name reason :=
    (server_name,
     {| folder_data := folder_data st;
        error_log := write_log (Skipped line_num reason) (error_log st) |}) in
  match learn_server_name server_name row with
  | inl e => skip server_name (Raised e)
  | inr server_name =>
      match extract row with
      | Rejected reason => skip server_name reason
      | Attributed folder_key length subfolders =>
          (server_name,
           {| folder_data := store folder_key length subfolders (folder_data st);
              error_log := error_log st |})
      end
  end.

(** The loop of [process_chunk], with the value its local [server_name]
    has when the function returns. *)
Definition process_chunk_loop (chunk : list (nat * Row)) (st : State)
    (server_name : string) : string * State :=
  fold_left process_row chunk (server_name, st).

(** [process_chunk] returns nothing: its caller sees the mutated
    [folder_data] and the error log, not the local [server_name]. *)
Definition process_chunk (chunk : list (nat * Row)) (st : State)
    (server_name : string) : State :=
  snd (process_chunk_loop chunk st server_name).

(** Line 45: [not row or len(row) < 3]. *)
Definition too_few_columns (row : Row) : bool :=
  match row with [] => true | _ => false end || (length row <? 3)%nat.

(** Lines 43-57: the rows after the header.  [server_name] is the variable
    of [process_csv], which no statement of this loop assigns. *)
Fixpoint read_rows (chunk_size : Z) (server_name : string)
    (rows : list Row) (line_num : nat) (chunk : list (nat * Row))
    (st : State) : State :=
  match rows with
  | [] =>
      match chunk with
      | [] => st
      | _ => process_chunk chunk st server_name
      end
  | row :: rest =>
      let line_num := S line_num in
      if too_few_columns row
      then read_rows chunk_size server_name rest line_num chunk
             {| folder_data := folder_data st;
                error_log :=
                  write_log (Skipped line_num TooFewColumns) (error_log st) |}
      else
        let chunk := chunk ++ [(line_num, row)] in
        if chunk_size <=? Z.of_nat (length chunk)
        then read_rows chunk_size server_name rest line_num []
               (process_chunk chunk st server_name)
        else read_rows chunk_size server_name rest line_num chunk st
  end.

(** Line 66: [round(data["size"] / (1024**3), 2)]. *)
Definition data_gb (size : Z) : option Z :=
  match Py.truediv_pow2 size 30 with
  | Some x => Some (Py.round_2 x)
  | None => None
  end.

(** Lines 62-69 for one bucket. *)
Definition output_row (server_name : string) (item : FolderKey * Bucket.t)
    : option OutputRow :=
  let '((drive, folder), data) := item in
  match data_gb (Bucket.size data) with
  | Some gb =>
      Some {| Server_Name := server_name;
              Drive := drive;
              Top_Level_Folder := folder;
              Data_GB := gb;
              Number_of_SubFolders := size (Bucket.subfolders data);
              Number_of_Files := Bucket.files data |}
  | None => None
  end.

(** Lines 60-69, without the header row: all the rows, or the exception
    of the first bucket that raises one. *)
Definition output_rows (server_name : string) (fd : FolderData)
    : option (list OutputRow) :=
  mapM (output_row server_name) fd.

Definition initial : State := {| folder_data := []; error_log := [] |}.

(** Lines 31-57: the state when the reading loop and the final chunk are
    done; [server_name] is the ['Unknown'] of line 33. *)
Definition aggregate (chunk_size : Z) (input : list Row) : State :=
  read_rows chunk_size "Unknown" (tail input) 1 [] initial.

(** [process_csv] with [chunk_size] as a parameter: the data rows of the
    report, if one is written, and the final state.  When line 66 raises,
    lines 81-84 write two lines to the error log and there is no
    report. *)
Definition process_csv_with (chunk_size : Z) (input : list Row)
    : option (list OutputRow) * State :=
  let server_name := "Unknown" in
  let st := aggregate chunk_size input in
  match output_rows server_name (folder_data st) with
  | Some rows => (Some rows, st)
  | None =>
      (None,
       {| folder_data := folder_data st;
          error_log :=
            write_log (ErrorProcessing OverflowError)
              (write_log ErrorOccurred (error_log st)) |})
  end.

Definition chunk_size : Z := 100000.

Definition process_csv (input : list Row)
    : option (list OutputRow) * State :=
  process_csv_with chunk_size input.

(** ** Notions the properties are stated with *)

(** The items line 49 puts into chunks for the rows read after line
    [line_num]: the whole stream as one batch. *)
Fixpoint numbered (line_num : nat) (rows : list Row) : list (nat * Row) :=
  match rows with
  | [] => []
  | row :: rest =>
      if too_few_columns row then numbered (S line_num) rest
      else (S line_num, row) :: numbered (S line_num) rest
  end.

(** The entries line 46 writes for the rows read after line [line_num]. *)
Fixpoint too_few_entries (line_num : nat) (rows : list Row) : list LogEntry :=
  match rows with
  | [] => []
  | row :: rest =>
      if too_few_columns row
      then Skipped (S line_num) TooFewColumns :: too_few_entries (S line_num) rest
      else too_few_entries (S line_num) rest
  end.

(** What one pass of the loop body does to [folder_data]. *)
Definition apply_row (fd : FolderData) (row : Row) : FolderData :=
  match extract row with
  | Attributed folder_key length subfolders =>
      store folder_key length subfolders fd
  | Rejected _ => fd
  end.

(** A row that passes line 45 and is attributed to a key. *)
Definition valid_row (row : Row) : bool :=
  negb (too_few_columns row)
  && match extract row with Attributed _ _ _ => true | Rejected _ => false end.

(** A row the loop body writes a log entry for. *)
Definition rejected_row (row : Row) : bool :=
  match extract row with Attributed _ _ _ => false | Rejected _ => true end.

(** A row attributed to [key]. *)
Definition attributed_to (key : FolderKey) (row : Row) : bool :=
  match extract row with
  | Attributed k _ _ => bool_decide (k = key)
  | Rejected _ => false
  end.

End Overview.

(** What [store] does to the bucket of its key, as one change. *)
Definition stored (length : Z) (subfolders : option (list string))
    (b : Bucket.t) : Bucket.t :=
  Bucket.add_file
    (Bucket.add_size length
       (match subfolders with
        | Some l => Bucket.update_subfolders l b
        | None => b
        end)).

(** Every bucket has seen at least one file and holds no negative size. *)
Definition counted (fd : FolderData) : Prop :=
  Forall (fun kb => 1 <= Bucket.files (snd kb) /\ 0 <= Bucket.size (snd kb)) fd.

(** A field the length scan of lines 123-127 stops at. *)
Definition is_size_field (part : string) : bool :=
  Py.fullmatch_digits (Py.strip_char squote (Py.strip_char dquote part)).

(** A field the path scan of lines 93-96 stops at. *)
Definition is_path_field (part : string) : bool :=
  Py.contains backslash part && Py.contains period part.

(** [s] does not start with a character [lstrip p] would remove. *)
Definition headed (p : ascii -> bool) (s : string) : Prop :=
  match s with
  | EmptyString => True
  | String a _ => p a = false
  end.

(** [s] is not empty and [rstrip p] leaves it as it is. *)
Definition ends_clean (p : ascii -> bool) (s : string) : Prop :=
  Py.rstrip p s = s /\ s <> EmptyString.

(** The path [\\d0\d1\...\dn\leaf] of directory segments [d0 .. dn] and a
    leaf. *)
Definition unc_path (dirs : list string) (leaf : string) : string :=
  Py.join "\" (EmptyString :: EmptyString :: dirs ++ [leaf]).

(** Follows the specification, section 4.2, steps 1 and 3: the directory
    segments of a path are what is left of [path], stripped of leading and
    trailing backslashes and split on backslash, without its last segment. *)
Definition spec_directory_segments (path : string) : list string :=
  removelast (Py.split backslash (Py.strip_char backslash path)).

(** ** Notions the further properties are stated with *)

(** How often [c] occurs in [s]. *)
Fixpoint count_char (c : ascii) (s : string) : nat :=
  match s with
  | EmptyString => 0
  | String a s' => (if Ascii.eqb a c then 1 else 0) + count_char c s'
  end.

(** [c * n] *)
Fixpoint replicate_char (n : nat) (c : ascii) : string :=
  match n with
  | O => EmptyString
  | S n' => String c (replicate_char n' c)
  end.

(** Every character of [s] passes [p]. *)
Fixpoint all_chars (p : ascii -> bool) (s : string) : bool :=
  match s with
  | EmptyString => true
  | String a s' => p a && all_chars p s'
  end.

(** [sum(l)] *)
Definition sum_Z (l : list Z) : Z := fold_right Z.add 0 l.

(** The keys of [keys], each at the place of its first occurrence. *)
Definition first_seen (keys : list FolderKey) : list FolderKey :=
  fold_left (fun seen k => if decide (k ∈ seen) then seen else seen ++ [k])
    keys [].

(** The rows line 45 lets through. *)
Definition passing (rows : list Row) : list Row :=
  List.filter (fun r => negb (too_few_columns r)) rows.

Section Totals.

Variable lim : nat.

(** Key, size and subfolder entries of a row, where it is attributed. *)
Definition key_of (row : Row) : option FolderKey :=
  match extract lim row with
  | Attributed k _ _ => Some k
  | Rejected _ => None
  end.

Definition length_of (row : Row) : Z :=
  match extract lim row with
  | Attributed _ n _ => n
  | Rejected _ => 0
  end.

Definition subfolders_from (row : Row) : list string :=
  match extract lim row with
  | Attributed _ _ (Some l) => l
  | _ => []
  end.

(** What the rows attributed to [key] add up to. *)
Definition files_for (key : FolderKey) (rows : list Row) : Z :=
  Z.of_nat (length (List.filter (attributed_to lim key) rows)).

Definition size_for (key : FolderKey) (rows : list Row) : Z :=
  sum_Z (map length_of (List.filter (attributed_to lim key) rows)).

Definition subfolders_for (key : FolderKey) (rows : list Row) : gset string :=
  ⋃ (map (fun r => list_to_set (subfolders_from r))
       (List.filter (attributed_to lim key) rows)).

(** One pass of the loop body, seen from the bucket of [key] alone. *)
Definition bucket_step (key : FolderKey) (ob : option Bucket.t) (row : Row)
    : option Bucket.t :=
  match extract lim row with
  | Attributed k n subs =>
      if decide (k = key)
      then Some (stored n subs (default Bucket.default ob))
      else ob
  | Rejected _ => ob
  end.

(** The entry a row read as line [line_num] costs, if it costs one. *)
Definition row_entry (line_num : nat) (row : Row) : list LogEntry :=
  if too_few_columns row then [Skipped line_num TooFewColumns]
  else match extract lim row with
       | Rejected reason => [Skipped line_num reason]
       | Attributed _ _ _ => []
       end.

(** The entries of the rows read after line [line_num], in line order. *)
Fixpoint expected_entries (line_num : nat) (rows : list Row)
    : list LogEntry :=
  match rows with
  | [] => []
  | row :: rest =>
      row_entry (S line_num) row ++ expected_entries (S line_num) rest
  end.

(** The entries the loop of [process_chunk] writes for a chunk. *)
Definition chunk_entries (chunk : list (nat * Row)) : list LogEntry :=
  flat_map (fun item =>
              match extract lim (snd item) with
              | Rejected reason => [Skipped (fst item) reason]
              | Attributed _ _ _ => []
              end) chunk.

End Totals.

(** The line number an entry carries, if it carries one. *)
Definition line_of (e : LogEntry) : option nat :=
  match e with
  | Skipped line_num _ => Some line_num
  | _ => None
  end.

(** The exception an entry reports, if it reports one. *)
Definition exception_of (e : LogEntry) : option PyException :=
  match e with
  | Skipped _ (Raised x) => Some x
  | ErrorProcessing x => Some x
  | _ => None
  end.

(** The integer a binary64 [(m, e)] with [0 <= e] stands for. *)
Definition float_value (x : Z * Z) : Z := fst x * 2 ^ snd x.

(** The least size in bytes that line 66 cannot convert: halfway from the
    largest binary64 times [2^30] to [2^1054], about 1.9e317. *)
Definition overflow_threshold : Z := 2 ^ 1054 - 2 ^ 1000.

(** What lines 81-84 add to the error log of a run. *)
Definition fatal_lines (report : option (list OutputRow)) : list LogEntry :=
  match report with
  | Some _ => []
  | None => [ErrorOccurred; ErrorProcessing OverflowError]
  end.

(** ** The store *)

Section StoreFacts.

Implicit Types (f g : Bucket.t -> Bucket.t) (key k : FolderKey)
  (fd : FolderData).

Lemma bucket_of_on_bucket_eq f key fd :
  bucket_of key (on_bucket f key fd)
  = Some (f (default Bucket.default (bucket_of key fd))).
Proof.
  induction fd as [|[k b] fd IH]; simpl.
  - by rewrite decide_True.
  - destruct (decide (k = key)) as [->|Hne]; simpl.
    + by rewrite decide_True.
    + by rewrite decide_False.
Qed.

Lemma bucket_of_on_bucket_ne f key k fd :
  k <> key -> bucket_of k (on_bucket f key fd) = bucket_of k fd.
Proof.
  intros Hne. induction fd as [|[k' b] fd IH]; simpl.
  - rewrite decide_False; [done | congruence].
  - destruct (decide (k' = key)) as [->|Hne']; simpl.
    + rewrite !decide_False; [done | congruence | congruence].
    + destruct (decide (k' = k)); [done | apply IH].
Qed.

(** Two changes of the same bucket in a row are one change. *)
Lemma on_bucket_twice f g key fd :
  on_bucket g key (on_bucket f key fd) = on_bucket (fun b => g (f b)) key fd.
Proof.
  induction fd as [|[k b] fd IH]; simpl.
  - by rewrite decide_True.
  - destruct (decide (k = key)) as [->|Hne]; simpl.
    + by rewrite decide_True.
    + rewrite decide_False; [by rewrite IH | done].
Qed.

Lemma on_bucket_Forall (P : FolderKey * Bucket.t -> Prop) f key fd :
  (forall b, P (key, b) -> P (key, f b)) ->
  P (key, f Bucket.default) ->
  Forall P fd -> Forall P (on_bucket f key fd).
Proof.
  intros Hstep Hnew. induction 1 as [|[k b] fd Hb Hfd IH]; simpl.
  - by repeat constructor.
  - destruct (decide (k = key)) as [->|Hne]; constructor; auto.
Qed.

Lemma store_on_bucket key length subfolders fd :
  store key length subfolders fd
  = on_bucket (stored length subfolders) key fd.
Proof.
  unfold store, stored. destruct subfolders as [l|]; by rewrite !on_bucket_twice.
Qed.

Lemma bucket_of_store_eq key length subfolders fd :
  bucket_of key (store key length subfolders fd)
  = Some (stored length subfolders (default Bucket.default (bucket_of key fd))).
Proof. rewrite store_on_bucket. apply bucket_of_on_bucket_eq. Qed.

Lemma bucket_of_store_ne key k length subfolders fd :
  k <> key -> bucket_of k (store key length subfolders fd) = bucket_of k fd.
Proof. rewrite store_on_bucket. apply bucket_of_on_bucket_ne. Qed.

Lemma store_counted key length subfolders fd :
  0 <= length -> counted fd -> counted (store key length subfolders fd).
Proof.
  intros Hlen. rewrite store_on_bucket. unfold counted.
  apply on_bucket_Forall.
  - intros b [Hf Hs]. destruct subfolders; simpl in *; lia.
  - destruct subfolders; simpl; lia.
Qed.

End StoreFacts.

(** ** Field scans *)

Lemma digit_value_range c :
  Py.isdigit c = true -> 0 <= Py.digit_value c <= 9.
Proof.
  unfold Py.isdigit, Py.digit_value. intros H.
  apply andb_true_iff in H as [H1 H2].
  apply Nat.leb_le in H1, H2. lia.
Qed.

(** [int_acc] reads a decimal numeral: one more digit at the end is one
    more step of Horner's rule. *)
Lemma int_acc_last s c acc :
  Py.int_acc acc (s +:+ String c EmptyString)
  = 10 * Py.int_acc acc s + Py.digit_value c.
Proof.
  revert acc. induction s as [|a s IH]; intros acc; [done|].
  change (String a s +:+ String c EmptyString)
    with (String a (s +:+ String c EmptyString)).
  simpl. apply IH.
Qed.

Lemma int_acc_nonneg s acc :
  Py.all_digits s = true -> 0 <= acc -> 0 <= Py.int_acc acc s.
Proof.
  revert acc. induction s as [|c s IH]; simpl; intros acc Hs Hacc; [done|].
  apply andb_true_iff in Hs as [Hc Hs].
  apply IH; [done|]. pose proof (digit_value_range c Hc). lia.
Qed.

Section ScanFacts.

Variable lim : nat.

Lemma extract_length_nonneg row n :
  extract_length lim row = Some n -> 0 <= n.
Proof.
  induction row as [|part row IH]; simpl.
  - intros [= <-]. lia.
  - destruct (Py.fullmatch_digits _) eqn:Hd; [|done].
    unfold Py.int. destruct (_ && _)%bool; [done|].
    intros [= <-]. apply andb_true_iff in Hd as [_ Hd].
    by apply int_acc_nonneg.
Qed.

Lemma extract_Attributed_inv row key n subs :
  extract lim row = Attributed key n subs ->
  extract_length lim row = Some n /\ row <> [].
Proof.
  unfold extract. destruct row as [|part row]; [done|].
  destruct (find_full_name _) as [fn|]; [|done].
  destruct (negb _); [done|].
  destruct (_ <? 3)%nat; [done|].
  destruct (extract_length _ _) as [m|]; [|done].
  intros [= _ -> _]. done.
Qed.

(** The loop body changes [folder_data] as [apply_row] says, whatever the
    local [server_name] and the log are. *)
Lemma process_row_folder_data sn st n row :
  folder_data (snd (process_row lim (sn, st) (n, row)))
  = apply_row lim (folder_data st) row.
Proof.
  unfold process_row, apply_row, learn_server_name.
  destruct row as [|first row].
  - destruct (_ || _); reflexivity.
  - destruct (_ || _); destruct (extract lim _); reflexivity.
Qed.

Lemma process_chunk_loop_folder_data chunk st sn :
  folder_data (snd (process_chunk_loop lim chunk st sn))
  = fold_left (apply_row lim) (map snd chunk) (folder_data st).
Proof.
  unfold process_chunk_loop. revert st sn.
  induction chunk as [|[n row] chunk IH]; intros st sn; [done|].
  cbn [fold_left map snd].
  destruct (process_row lim (sn, st) (n, row)) as [sn' st'] eqn:Hrow.
  rewrite IH. f_equal.
  by rewrite <- (process_row_folder_data sn st n row), Hrow.
Qed.

Lemma process_chunk_folder_data chunk st sn :
  folder_data (process_chunk lim chunk st sn)
  = fold_left (apply_row lim) (map snd chunk) (folder_data st).
Proof. apply process_chunk_loop_folder_data. Qed.

Lemma apply_row_counted fd row :
  counted fd -> counted (apply_row lim fd row).
Proof.
  unfold apply_row. destruct (extract lim row) as [|key n subs] eqn:Hx; [done|].
  apply extract_Attributed_inv in Hx as [Hn _].
  apply store_counted. by eapply extract_length_nonneg.
Qed.

Lemma fold_apply_row_counted rows fd :
  counted fd -> counted (fold_left (apply_row lim) rows fd).
Proof.
  revert fd. induction rows as [|row rows IH]; simpl; auto using apply_row_counted.
Qed.

Lemma read_rows_nil cs sn n chunk st :
  read_rows lim cs sn [] n chunk st
  = match chunk with [] => st | _ => process_chunk lim chunk st sn end.
Proof. reflexivity. Qed.

Lemma read_rows_cons cs sn row rows n chunk st :
  read_rows lim cs sn (row :: rows) n chunk st
  = if too_few_columns row
    then read_rows lim cs sn rows (S n) chunk
           {| folder_data := folder_data st;
              error_log :=
                write_log (Skipped (S n) TooFewColumns) (error_log st) |}
    else if cs <=? Z.of_nat (length (chunk ++ [(S n, row)]))
         then read_rows lim cs sn rows (S n) []
                (process_chunk lim (chunk ++ [(S n, row)]) st sn)
         else read_rows lim cs sn rows (S n) (chunk ++ [(S n, row)]) st.
Proof. reflexivity. Qed.

(** The driver applies, in order, the rows that pass line 45: the rows
    still waiting in [chunk], then those of [rows]. *)
Lemma read_rows_folder_data cs sn rows n chunk st :
  folder_data (read_rows lim cs sn rows n chunk st)
  = fold_left (apply_row lim)
      (map snd chunk ++ List.filter (fun r => negb (too_few_columns r)) rows)
      (folder_data st).
Proof.
  revert n chunk st.
  induction rows as [|row rows IH]; intros n chunk st.
  - rewrite read_rows_nil, app_nil_r. destruct chunk; [done|].
    apply process_chunk_folder_data.
  - rewrite read_rows_cons. cbn [List.filter].
    destruct (too_few_columns row); cbn [negb].
    + by rewrite IH.
    + destruct (cs <=? _); rewrite IH.
      * rewrite process_chunk_folder_data, map_app.
        by rewrite <- fold_left_app, <- app_assoc.
      * by rewrite map_app, <- app_assoc.
Qed.

Lemma map_snd_numbered n rows :
  map snd (numbered n rows) = List.filter (fun r => negb (too_few_columns r)) rows.
Proof.
  revert n. induction rows as [|row rows IH]; intros n; simpl; [done|].
  destruct (too_few_columns row); simpl; by rewrite IH.
Qed.

(** A run ends with the mapping the reading loop leaves, writes the
    report of that mapping, and adds to the log of the loop the two lines
    of lines 83-84 when there is no report. *)
Lemma process_csv_with_folder_data cs input :
  folder_data (snd (process_csv_with lim cs input))
  = folder_data (aggregate lim cs input).
Proof. unfold process_csv_with. by destruct (output_rows _ _). Qed.

Lemma process_csv_with_fst cs input :
  fst (process_csv_with lim cs input)
  = output_rows "Unknown" (folder_data (aggregate lim cs input)).
Proof. unfold process_csv_with. by destruct (output_rows _ _). Qed.

Lemma process_csv_with_log cs input :
  error_log (snd (process_csv_with lim cs input))
  = error_log (aggregate lim cs input)
    ++ fatal_lines (fst (process_csv_with lim cs input)).
Proof.
  unfold process_csv_with. destruct (output_rows _ _); cbn [fst snd error_log].
  - by rewrite app_nil_r.
  - unfold write_log, fatal_lines. by rewrite <- app_assoc.
Qed.

Lemma aggregate_folder_data cs input :
  folder_data (aggregate lim cs input)
  = fold_left (apply_row lim)
      (List.filter (fun r => negb (too_few_columns r)) (tail input)) [].
Proof. unfold aggregate. by rewrite read_rows_folder_data. Qed.

End ScanFacts.

(** A report has one row for each bucket, in the order of the mapping. *)
Lemma output_rows_Some sn (fd : FolderData) report :
  output_rows sn fd = Some report ->
  Forall2 (fun item r => output_row sn item = Some r) fd report.
Proof. unfold output_rows. by intros ?%mapM_Some. Qed.

Lemma output_row_fields sn item r :
  output_row sn item = Some r ->
  Server_Name r = sn
  /\ (Drive r, Top_Level_Folder r) = fst item
  /\ data_gb (Bucket.size (snd item)) = Some (Data_GB r)
  /\ Number_of_SubFolders r = size (Bucket.subfolders (snd item))
  /\ Number_of_Files r = Bucket.files (snd item).
Proof.
  destruct item as [[drive folder] data]. unfold output_row.
  destruct (data_gb _) as [gb|]; [|done]. by intros [= <-].
Qed.



Lemma output_rows_Forall sn (fd : FolderData) report
    (Q : OutputRow -> Prop) :
  output_rows sn fd = Some report ->
  Forall (fun item => forall r, output_row sn item = Some r -> Q r) fd ->
  Forall Q report.
Proof.
  intros Hrows%output_rows_Some.
  induction Hrows as [|item r fd report Hr _ IH]; intros Hfd; [done|].
  inversion Hfd; subst. constructor; auto.
Qed.


(** ** The conversion to GB of line 66 *)


(** The shape of a rounded value: a mantissa of at most 53 bits, the
    leading bit kept. *)
Lemma round_53_shape num :
  0 < num ->
  let L := Z.log2 num in
  let s := Z.max 0 (L - 52) in
  exists m, Py.round_53 num = (m, s)
            /\ 2 ^ L <= m * 2 ^ s <= 2 ^ (L + 1)
            /\ (s = 0 -> m = num)
            /\ (0 < s ->
                let q := num / 2 ^ s in
                let r := num mod 2 ^ s in
                m = if (2 ^ (s - 1) <? r) || ((2 ^ (s - 1) =? r) && Z.odd q)
                    then q + 1 else q).
Proof.
  intros Hpos L s.
  pose proof (Z.log2_spec num Hpos) as [Hlo Hhi]. fold L in Hlo, Hhi.
  assert (0 <= L) as HL by apply Z.log2_nonneg.
  unfold Py.round_53. fold L. fold s.
  destruct (Z.eqb_spec s 0) as [Hs|Hs].
  - exists (num / 2 ^ s). rewrite Hs. simpl. rewrite Z.div_1_r.
    split; [done|]. split; [|split; [done|lia]].
    replace (Z.succ L) with (L + 1) in Hhi by lia. lia.
  - assert (s = L - 52 /\ 0 < s) as [HsL Hs0] by lia.
    set (P := 2 ^ s).
    assert (0 < P) as HP by (apply Z.pow_pos_nonneg; lia).
    assert (2 ^ L = 2 ^ 52 * P) as HLP.
    { unfold P. rewrite <- Z.pow_add_r by lia. f_equal. lia. }
    assert (2 ^ (L + 1) = 2 ^ 53 * P) as HLP'.
    { unfold P. rewrite <- Z.pow_add_r by lia. f_equal. lia. }
    replace (Z.succ L) with (L + 1) in Hhi by lia.
    pose proof (Z.div_mod num P ltac:(lia)) as Hdm.
    pose proof (Z.mod_pos_bound num P HP) as Hr.
    set (q := num / P) in *. set (r := num mod P) in *.
    assert (2 ^ 52 <= q < 2 ^ 53) as Hq.
    { split.
      - apply Z.div_le_lower_bound; lia.
      - apply Z.div_lt_upper_bound; lia. }
    destruct (_ || _).
    + exists (q + 1). split; [done|]. split; [|split; [lia|done]].
      fold P. rewrite HLP, HLP'. nia.
    + exists q. split; [done|]. split; [|split; [lia|done]].
      fold P. rewrite HLP, HLP'. nia.
Qed.

Lemma round_53_nonneg num : 0 <= num -> 0 <= float_value (Py.round_53 num).
Proof.
  intros H. destruct (Z.eq_dec num 0) as [->|Hne]; [done|].
  destruct (round_53_shape num ltac:(lia)) as (m & -> & [Hlo _] & _).
  unfold float_value. simpl.
  pose proof (Z.pow_pos_nonneg 2 (Z.log2 num) ltac:(lia) (Z.log2_nonneg _)).
  lia.
Qed.

(** Rounding to 53 bits keeps the order. *)
Lemma round_53_monotone a b :
  0 <= a <= b ->
  float_value (Py.round_53 a) <= float_value (Py.round_53 b).
Proof.
  intros [Ha Hab].
  destruct (Z.eq_dec a 0) as [->|Hne].
  { change (float_value (Py.round_53 0)) with 0. apply round_53_nonneg; lia. }
  destruct (round_53_shape a ltac:(lia)) as (ma & -> & [_ Hahi] & Ha0 & Has).
  destruct (round_53_shape b ltac:(lia)) as (mb & -> & [Hblo _] & Hb0 & Hbs).
  unfold float_value. cbn [fst snd].
  pose proof (Z.log2_le_mono a b Hab) as Hlog.
  destruct (Z.eq_dec (Z.log2 a) (Z.log2 b)) as [Heq|Hlt].
  - rewrite Heq in *. set (s := Z.max 0 (Z.log2 b - 52)) in *.
    assert (0 <= s) as Hs by lia.
    destruct (Z.eq_dec s 0) as [Hs0|Hs0].
    + rewrite Ha0, Hb0 by done. rewrite Hs0. lia.
    + specialize (Has ltac:(lia)). specialize (Hbs ltac:(lia)).
      cbn zeta in Has, Hbs.
      set (P := 2 ^ s) in *.
      assert (0 < P) as HP by (apply Z.pow_pos_nonneg; lia).
      apply Z.mul_le_mono_nonneg_r; [lia|].
      pose proof (Z.div_mod a P ltac:(lia)) as Hda.
      pose proof (Z.div_mod b P ltac:(lia)) as Hdb.
      pose proof (Z.mod_pos_bound a P HP) as Hra.
      pose proof (Z.mod_pos_bound b P HP) as Hrb.
      pose proof (Z.div_le_mono a b P HP Hab) as Hq.
      set (qa := a / P) in *. set (ra := a mod P) in *.
      set (qb := b / P) in *. set (rb := b mod P) in *.
      set (H := 2 ^ (s - 1)) in *.
      destruct (Z.eq_dec qa qb) as [Hqq|Hqq].
      * assert (ra <= rb) as Hr by nia.
        rewrite Hqq in Has. subst ma mb. clear Ha0 Hb0 Hahi Hblo.
        destruct (Z.ltb_spec H ra) as [Hlt|Hge]; cbn [orb].
        { destruct (Z.ltb_spec H rb); [done|lia]. }
        destruct (Z.eqb_spec H ra) as [Heq'|Hne']; cbn [andb].
        { destruct (Z.ltb_spec H rb); cbn [orb];
            [destruct (Z.odd qb); simpl; lia|].
          destruct (Z.eqb_spec H rb); [done|lia]. }
        destruct (Z.ltb_spec H rb); cbn [orb]; [lia|]. destruct (_ && _); lia.
      * assert (ma <= qa + 1)
          by (rewrite Has; destruct ((H <? ra) || _); simpl; lia).
        assert (qb <= mb)
          by (rewrite Hbs; destruct ((H <? rb) || _); simpl; lia).
        lia.
  - assert (Z.log2 a + 1 <= Z.log2 b) as Hlt' by lia.
    pose proof (Z.pow_le_mono_r 2 _ _ ltac:(lia) Hlt'). lia.
Qed.

Lemma nearest_hundredth_scale num den c :
  0 < den -> 0 < c ->
  Py.nearest_hundredth (num * c) (den * c) = Py.nearest_hundredth num den.
Proof.
  intros Hden Hc. unfold Py.nearest_hundredth.
  replace (100 * (num * c)) with (100 * num * c) by lia.
  rewrite Z.div_mul_cancel_r, Z.mul_mod_distr_r by lia.
  set (r := (100 * num) mod den).
  destruct (Z.ltb_spec (2 * r) den), (Z.ltb_spec (2 * (r * c)) (den * c));
    try nia.
  destruct (Z.ltb_spec den (2 * r)), (Z.ltb_spec (den * c) (2 * (r * c)));
    try nia; done.
Qed.

(** The hundredths [round] gives are those of the integer the quotient
    stands for times [2^30]. *)
Lemma round_2_value m s :
  0 <= s ->
  Py.round_2 (m, s - 30) = Py.nearest_hundredth (m * 2 ^ s) (2 ^ 30).
Proof.
  intros Hs. unfold Py.round_2.
  destruct (Z.leb_spec 0 (s - 30)).
  - replace s with ((s - 30) + 30) at 2 by lia.
    rewrite Z.pow_add_r by lia.
    set (c := 2 ^ (s - 30)).
    unfold Py.nearest_hundredth.
    replace (100 * (m * (c * 2 ^ 30))) with ((100 * m * c) * 2 ^ 30) by lia.
    rewrite Z.div_mul, Z.mod_mul by lia. done.
  - assert (0 < 2 ^ s) by (apply Z.pow_pos_nonneg; lia).
    assert (0 < 2 ^ (- (s - 30))) by (apply Z.pow_pos_nonneg; lia).
    rewrite <- (nearest_hundredth_scale m (2 ^ (- (s - 30))) (2 ^ s)) by lia.
    f_equal. rewrite <- Z.pow_add_r by lia. f_equal. lia.
Qed.

Lemma round_53_shift num : 0 <= snd (Py.round_53 num).
Proof. unfold Py.round_53. repeat case_match; simpl; lia. Qed.

(** Line 66 in one formula. *)
Lemma data_gb_unfold size :
  data_gb size
  = let v := float_value (Py.round_53 size) in
    if 2 ^ 1054 <=? v then None else Some (Py.nearest_hundredth v (2 ^ 30)).
Proof.
  unfold data_gb, Py.truediv_pow2, float_value.
  pose proof (round_53_shift size) as Hs.
  destruct (Py.round_53 size) as [m s]. cbn [fst snd] in *.
  change (1024 + 30) with 1054. cbn zeta.
  destruct (2 ^ 1054 <=? m * 2 ^ s); [done|].
  by rewrite round_2_value.
Qed.

(** The nearest hundredth is within half a hundredth. *)
Lemma nearest_hundredth_bound num den :
  0 <= num -> 0 < den ->
  2 * Z.abs (100 * num - Py.nearest_hundredth num den * den) <= den.
Proof.
  intros Hnum Hden. unfold Py.nearest_hundredth.
  pose proof (Z.div_mod (100 * num) den ltac:(lia)) as Hdm.
  pose proof (Z.mod_pos_bound (100 * num) den Hden) as Hr.
  set (q := 100 * num / den) in *. set (r := (100 * num) mod den) in *.
  destruct (Z.ltb_spec (2 * r) den); [lia|].
  destruct (Z.ltb_spec den (2 * r)); [lia|].
  destruct (Z.even q); lia.
Qed.

Lemma nearest_hundredth_monotone num num' :
  0 <= num <= num' ->
  Py.nearest_hundredth num (2 ^ 30) <= Py.nearest_hundredth num' (2 ^ 30).
Proof.
  intros [H0 Hle].
  destruct (Z.eq_dec num num') as [->|Hne]; [lia|].
  pose proof (nearest_hundredth_bound num (2 ^ 30) ltac:(lia) ltac:(lia)).
  pose proof (nearest_hundredth_bound num' (2 ^ 30) ltac:(lia) ltac:(lia)).
  change (2 ^ 30) with 1073741824 in *. lia.
Qed.

(** Line 66 raises exactly from [overflow_threshold] on. *)
Lemma data_gb_None size :
  0 <= size -> (data_gb size = None <-> overflow_threshold <= size).
Proof.
  intros H0. rewrite data_gb_unfold. cbn zeta.
  split.
  - destruct (Z.leb_spec (2 ^ 1054) (float_value (Py.round_53 size)))
      as [Hv|Hv]; [intros _|done].
    destruct (Z.le_gt_cases overflow_threshold size) as [|Hlt]; [done|].
    pose proof (round_53_monotone size (overflow_threshold - 1) ltac:(lia))
      as Hm.
    assert (float_value (Py.round_53 (overflow_threshold - 1)) < 2 ^ 1054)
      by (vm_compute; reflexivity).
    lia.
  - intros Hle.
    assert (0 <= overflow_threshold <= size) as Hrange
      by (split; [by vm_compute|lia]).
    pose proof (round_53_monotone overflow_threshold size Hrange) as Hm.
    assert (2 ^ 1054 <= float_value (Py.round_53 overflow_threshold))
      by (vm_compute; discriminate).
    destruct (Z.leb_spec (2 ^ 1054) (float_value (Py.round_53 size)));
      [done|lia].
Qed.


Lemma data_gb_monotone size size' a b :
  0 <= size <= size' ->
  data_gb size = Some a -> data_gb size' = Some b -> a <= b.
Proof.
  intros Hle. rewrite !data_gb_unfold. cbn zeta.
  pose proof (round_53_monotone size size' Hle).
  pose proof (round_53_nonneg size ltac:(lia)).
  destruct (_ <=? _); [done|]. destruct (_ <=? _); [done|].
  intros [= <-] [= <-]. by apply nearest_hundredth_monotone.
Qed.


Section RunFacts.

Variable lim : nat.



(** Without a report the log ends with the two lines of lines 83-84. *)
Lemma process_csv_with_None cs input :
  fst (process_csv_with lim cs input) = None ->
  error_log (snd (process_csv_with lim cs input))
  = error_log (aggregate lim cs input)
    ++ [ErrorOccurred; ErrorProcessing OverflowError].
Proof. intros H. by rewrite process_csv_with_log, H. Qed.

Lemma process_csv_with_Some cs input report :
  fst (process_csv_with lim cs input) = Some report ->
  snd (process_csv_with lim cs input) = aggregate lim cs input.
Proof.
  unfold process_csv_with. by destruct (output_rows _ _).
Qed.

End RunFacts.

(** ** One row at a time *)

Section RowFacts.

Variable lim : nat.

Lemma no_size_field_length_0 row :
  Forall (fun part => is_size_field part = false) row ->
  extract_length lim row = Some 0.
Proof.
  induction 1 as [|part row Hpart _ IH]; simpl; [done|].
  unfold is_size_field in Hpart. by rewrite Hpart.
Qed.

Lemma stored_files n subs b :
  Bucket.files (stored n subs b) = Bucket.files b + 1.
Proof. by destruct subs. Qed.

Lemma stored_size n subs b :
  Bucket.size (stored n subs b) = Bucket.size b + n.
Proof. by destruct subs. Qed.

Lemma stored_subfolders n subs b :
  Bucket.subfolders (stored n subs b)
  = Bucket.subfolders b ∪ list_to_set (default [] subs).
Proof. destruct subs; simpl; [done|]. by rewrite union_empty_r_L. Qed.

(** Counters of the key a row is stored under. *)
Lemma store_same_key key n subs fd :
  files_of key (store key n subs fd) = files_of key fd + 1
  /\ size_of key (store key n subs fd) = size_of key fd + n
  /\ subfolders_of key (store key n subs fd)
     = subfolders_of key fd ∪ list_to_set (default [] subs).
Proof.
  unfold files_of, size_of, subfolders_of. rewrite bucket_of_store_eq.
  destruct subs; simpl; repeat split; by rewrite union_empty_r_L.
Qed.

Lemma store_monotone key n subs fd k :
  0 <= n ->
  files_of k fd <= files_of k (store key n subs fd)
  /\ size_of k fd <= size_of k (store key n subs fd)
  /\ (size (subfolders_of k fd)
      <= size (subfolders_of k (store key n subs fd)))%nat
  /\ (is_Some (bucket_of k fd) ->
      is_Some (bucket_of k (store key n subs fd))).
Proof.
  intros Hn. destruct (decide (k = key)) as [->|Hne].
  - destruct (store_same_key key n subs fd) as (-> & -> & ->).
    repeat split; [lia | lia | | ].
    + apply subseteq_size. set_solver.
    + rewrite bucket_of_store_eq. eauto.
  - unfold files_of, size_of, subfolders_of.
    rewrite bucket_of_store_ne by done. repeat split; lia || done.
Qed.

Lemma apply_row_monotone fd row k :
  files_of k fd <= files_of k (apply_row lim fd row)
  /\ size_of k fd <= size_of k (apply_row lim fd row)
  /\ (size (subfolders_of k fd)
      <= size (subfolders_of k (apply_row lim fd row)))%nat
  /\ (is_Some (bucket_of k fd) ->
      is_Some (bucket_of k (apply_row lim fd row))).
Proof.
  unfold apply_row. destruct (extract lim row) as [|key n subs] eqn:Hx.
  - repeat split; lia || done.
  - apply store_monotone. apply extract_Attributed_inv in Hx as [Hn _].
    by eapply extract_length_nonneg.
Qed.

Lemma fold_apply_row_monotone rows fd k :
  files_of k fd <= files_of k (fold_left (apply_row lim) rows fd)
  /\ size_of k fd <= size_of k (fold_left (apply_row lim) rows fd)
  /\ (size (subfolders_of k fd)
      <= size (subfolders_of k (fold_left (apply_row lim) rows fd)))%nat
  /\ (is_Some (bucket_of k fd) ->
      is_Some (bucket_of k (fold_left (apply_row lim) rows fd))).
Proof.
  revert fd. induction rows as [|row rows IH]; intros fd; simpl.
  - repeat split; lia || done.
  - destruct (apply_row_monotone fd row k) as (H1 & H2 & H3 & H4).
    destruct (IH (apply_row lim fd row)) as (I1 & I2 & I3 & I4).
    repeat split; [lia | lia | lia | auto].
Qed.

(** C6: a row attributed to a key adds exactly one to the key's file count
    and exactly its parsed size (0 when no field is numeric) to the key's
    size, and leaves the error log alone; over any further rows, and over
    any longer input of a run, no counter of any key decreases, no
    subfolder set shrinks and no key disappears. *)
Theorem attributed_row_adds_one_file_and_its_size :
  (forall sn st n row key len subs,
      extract lim row = Attributed key len subs ->
      let st' := snd (process_row lim (sn, st) (n, row)) in
      extract_length lim row = Some len
      /\ (Forall (fun part => is_size_field part = false) row -> len = 0)
      /\ files_of key (folder_data st') = files_of key (folder_data st) + 1
      /\ size_of key (folder_data st') = size_of key (folder_data st) + len
      /\ error_log st' = error_log st)
  /\ (forall chunk st sn k,
      let st' := process_chunk lim chunk st sn in
      files_of k (folder_data st) <= files_of k (folder_data st')
      /\ size_of k (folder_data st) <= size_of k (folder_data st')
      /\ (size (subfolders_of k (folder_data st))
          <= size (subfolders_of k (folder_data st')))%nat
      /\ (is_Some (bucket_of k (folder_data st)) ->
          is_Some (bucket_of k (folder_data st'))))
  /\ (forall header rows more k,
      let fd := folder_data (snd (process_csv lim (header :: rows))) in
      let fd' := folder_data (snd (process_csv lim (header :: rows ++ more))) in
      files_of k fd <= files_of k fd'
      /\ size_of k fd <= size_of k fd'
      /\ (size (subfolders_of k fd) <= size (subfolders_of k fd'))%nat
      /\ (is_Some (bucket_of k fd) -> is_Some (bucket_of k fd'))).
Proof.
  split; [|split].
  - intros sn st n row key len subs Hx st'.
    pose proof (extract_Attributed_inv lim _ _ _ _ Hx) as [Hlen Hrow].
    split; [done|]. split.
    { intros Hnone. apply no_size_field_length_0 in Hnone. congruence. }
    assert (st' = {| folder_data := store key len subs (folder_data st);
                     error_log := error_log st |}) as ->.
    { subst st'. unfold process_row, learn_server_name.
      destruct row as [|first row]; [done|].
      destruct (_ || _); by rewrite Hx. }
    simpl. destruct (store_same_key key len subs (folder_data st)) as (-> & -> & _).
    done.
  - intros chunk st sn k st'. subst st'.
    rewrite process_chunk_folder_data. apply fold_apply_row_monotone.
  - intros header rows more k fd fd'. subst fd fd'.
    unfold process_csv.
    rewrite !process_csv_with_folder_data, !aggregate_folder_data.
    cbn [tail].
    rewrite List.filter_app, fold_left_app.
    apply fold_apply_row_monotone.
Qed.

(** C10: in the final mapping of a run every bucket has a file count of at
    least 1, so every data row of the report, when the run writes one,
    does. *)
Theorem every_bucket_counts_a_file input :
  Forall (fun kb => 1 <= Bucket.files (snd kb))
    (folder_data (snd (process_csv lim input)))
  /\ match fst (process_csv lim input) with
     | Some report => Forall (fun r => 1 <= Number_of_Files r) report
     | None => True
     end.
Proof.
  assert (counted (folder_data (snd (process_csv lim input)))) as Hc.
  { unfold process_csv.
    rewrite process_csv_with_folder_data, aggregate_folder_data.
    apply fold_apply_row_counted. constructor. }
  split.
  - eapply Forall_impl; [exact Hc|]. by intros kb [? _].
  - unfold process_csv in *.
    rewrite process_csv_with_fst.
    rewrite process_csv_with_folder_data in Hc.
    destruct (output_rows _ _) as [report|] eqn:Hreport; [|done].
    eapply output_rows_Forall; [exact Hreport|].
    eapply Forall_impl; [exact Hc|].
    intros item [Hfiles _] r (_ & _ & _ & _ & ->)%output_row_fields.
    exact Hfiles.
Qed.

(** C7: the final mapping of a run, and with it the report, is the one a
    single call of [process_chunk] on the whole stream leaves, whatever the
    batch size. *)
Theorem batch_boundaries_do_not_matter input cs :
  let whole :=
    process_chunk lim (numbered 1 (tail input)) initial "Unknown" in
  folder_data (snd (process_csv_with lim cs input)) = folder_data whole
  /\ folder_data (snd (process_csv lim input)) = folder_data whole
  /\ fst (process_csv_with lim cs input)
     = output_rows "Unknown" (folder_data whole).
Proof.
  intros whole.
  assert (forall n, folder_data (snd (process_csv_with lim n input))
                    = folder_data whole) as Hany.
  { intros n. subst whole.
    rewrite process_csv_with_folder_data, aggregate_folder_data.
    by rewrite process_chunk_folder_data, map_snd_numbered. }
  split; [apply Hany|]. split; [apply Hany|].
  by rewrite <- (Hany cs), process_csv_with_fst, process_csv_with_folder_data.
Qed.

End RowFacts.

(** ** The error log of a run *)

Section LogFacts.

Variable lim : nat.













End LogFacts.

(** ** Stripping keeps what it does not strip *)

Lemma contains_lstrip p c s :
  p c = false -> Py.contains c (Py.lstrip p s) = Py.contains c s.
Proof.
  intros Hc. induction s as [|a s IH]; simpl; [done|].
  destruct (p a) eqn:Ha; [|done].
  rewrite IH. destruct (Ascii.eqb_spec a c) as [->|]; [congruence | done].
Qed.

Lemma contains_rstrip p c s :
  p c = false -> Py.contains c (Py.rstrip p s) = Py.contains c s.
Proof.
  intros Hc. induction s as [|a s IH]; simpl; [done|].
  destruct (Py.rstrip p s) as [|b r] eqn:Hr.
  - simpl in IH. rewrite <- IH.
    destruct (p a) eqn:Ha; simpl; [|by destruct (Ascii.eqb a c)].
    destruct (Ascii.eqb_spec a c) as [->|]; [congruence | done].
  - rewrite <- IH. reflexivity.
Qed.

Lemma contains_truthy c s : Py.contains c s = true -> Py.truthy s = true.
Proof. by destruct s. Qed.

Lemma backslash_not_space : Py.isspace backslash = false.
Proof. reflexivity. Qed.

Lemma find_full_name_truthy row fn :
  find_full_name row = Some fn -> Py.truthy fn = true.
Proof.
  induction row as [|part row IH]; simpl; [done|].
  destruct (Py.contains backslash part) eqn:Hb; simpl; [|done].
  destruct (Py.contains period part); [|done].
  intros [= <-]. apply (contains_truthy backslash). unfold Py.strip.
  by rewrite contains_rstrip, contains_lstrip by apply backslash_not_space.
Qed.

(** ** The size of a row *)

Section SizeFacts.

Variable lim : nat.

(** The length scan stops at the first size field, if there is one. *)
Lemma extract_length_first row len :
  extract_length lim row = Some len ->
  (exists i part,
      row !! i = Some part
      /\ is_size_field part = true
      /\ (forall j p, (j < i)%nat -> row !! j = Some p ->
                      is_size_field p = false)
      /\ len = Py.int_acc 0 (Py.strip_char squote (Py.strip_char dquote part)))
  \/ (Forall (fun part => is_size_field part = false) row /\ len = 0).
Proof.
  revert len. induction row as [|part row IH]; intros len; simpl.
  - intros [= <-]. right. by split.
  - destruct (Py.fullmatch_digits _) eqn:Hd.
    + unfold Py.int. destruct (_ && _)%bool; [done|]. intros [= <-].
      left. exists 0%nat, part. repeat split; [done | lia].
    + intros Hlen. destruct (IH _ Hlen) as [(i & p & Hi & Hp & Hfirst & ->)|[Hnone ->]].
      * left. exists (S i), p. repeat split; [done | done |].
        intros [|j] q Hj Hq; simplify_eq/=; [done|].
        eapply Hfirst; [|done]. lia.
      * right. split; [|done]. by constructor.
Qed.

(** C8: the size of an accepted row is the integer value of its first
    field that is all decimal digits once its surrounding quotes are
    stripped, and 0 when it has no such field; a row with a well-formed
    path and no such field is accepted with size 0 and counted. *)
Theorem size_is_first_numeric_field :
  (forall row key len subs,
      extract lim row = Attributed key len subs ->
      (exists i part,
          row !! i = Some part
          /\ is_size_field part = true
          /\ (forall j p, (j < i)%nat -> row !! j = Some p ->
                          is_size_field p = false)
          /\ len = Py.int_acc 0
                     (Py.strip_char squote (Py.strip_char dquote part)))
      \/ (Forall (fun part => is_size_field part = false) row /\ len = 0))
  /\ (forall row full_name,
      find_full_name row = Some full_name ->
      (3 <= length (Py.split backslash (Py.strip full_name)))%nat ->
      Forall (fun part => is_size_field part = false) row ->
      exists key subs,
        extract lim row = Attributed key 0 subs
        /\ forall sn st n,
            let fd' := folder_data (snd (process_row lim (sn, st) (n, row))) in
            files_of key fd' = files_of key (folder_data st) + 1
            /\ size_of key fd' = size_of key (folder_data st)).
Proof.
  split.
  - intros row key len subs Hx.
    apply extract_Attributed_inv in Hx as [Hlen _].
    by apply extract_length_first.
  - intros row fn Hfn Hparts Hnone.
    assert (exists key subs, extract lim row = Attributed key 0 subs)
      as (key & subs & Hx).
    { unfold extract. rewrite Hfn, (find_full_name_truthy _ _ Hfn). simpl.
      apply Nat.ltb_ge in Hparts. rewrite Hparts.
      rewrite (no_size_field_length_0 lim row Hnone). eauto. }
    exists key, subs. split; [done|]. intros sn st n fd'. subst fd'.
    rewrite process_row_folder_data. unfold apply_row. rewrite Hx.
    destruct (store_same_key key 0 subs (folder_data st)) as (-> & -> & _).
    split; [done | lia].
Qed.

End SizeFacts.

(** ** Keys of the store and rows of the report *)

Lemma on_bucket_keys f key fd k :
  In k (map fst (on_bucket f key fd)) -> k = key \/ In k (map fst fd).
Proof.
  induction fd as [|[k' b] fd IH]; simpl.
  - intros [<-|[]]. by left.
  - destruct (decide (k' = key)) as [->|Hne]; simpl; [tauto|].
    intros [<-|Hin]; [tauto|]. destruct (IH Hin); tauto.
Qed.

Lemma on_bucket_NoDup f key fd :
  List.NoDup (map fst fd) -> List.NoDup (map fst (on_bucket f key fd)).
Proof.
  induction fd as [|[k b] fd IH]; simpl; intros Hnd.
  - repeat constructor. tauto.
  - inversion_clear Hnd as [|? ? Hk Hfd].
    destruct (decide (k = key)) as [->|Hne]; simpl; constructor; auto.
    intros [->|Hin]%on_bucket_keys; tauto.
Qed.

Lemma bucket_of_In key b fd :
  List.NoDup (map fst fd) -> In (key, b) fd -> bucket_of key fd = Some b.
Proof.
  induction fd as [|[k b'] fd IH]; simpl; [done|].
  intros Hnd. inversion_clear Hnd as [|? ? Hk Hfd].
  intros [[= -> ->]|Hin].
  - by rewrite decide_True.
  - destruct (decide (k = key)) as [->|Hne]; [|auto].
    destruct Hk. apply in_map_iff. by exists (key, b).
Qed.

Lemma bucket_of_Some_In key b fd :
  bucket_of key fd = Some b -> In (key, b) fd.
Proof.
  induction fd as [|[k b'] fd IH]; simpl; [done|].
  destruct (decide (k = key)) as [->|Hne]; [|auto].
  intros [= ->]. by left.
Qed.

Section ReportFacts.

Variable lim : nat.

Lemma apply_row_NoDup fd row :
  List.NoDup (map fst fd) -> List.NoDup (map fst (apply_row lim fd row)).
Proof.
  unfold apply_row. destruct (extract lim row); [done|].
  rewrite store_on_bucket. apply on_bucket_NoDup.
Qed.

Lemma fold_apply_row_NoDup rows fd :
  List.NoDup (map fst fd) ->
  List.NoDup (map fst (fold_left (apply_row lim) rows fd)).
Proof.
  revert fd. induction rows as [|row rows IH]; simpl; auto using apply_row_NoDup.
Qed.




(** The report never shows another server name than the initial one. *)
Lemma report_server_name_unknown cs input report :
  fst (process_csv_with lim cs input) = Some report ->
  Forall (fun r => Server_Name r = "Unknown") report.
Proof.
  rewrite process_csv_with_fst. intros Hreport.
  eapply output_rows_Forall; [exact Hreport|].
  apply Forall_forall. by intros item _ r (-> & _)%output_row_fields.
Qed.

End ReportFacts.

(** ** Stripping twice *)

Lemma lstrip_headed p s : headed p (Py.lstrip p s).
Proof.
  induction s as [|a s IH]; simpl; [done|].
  destruct (p a) eqn:Ha; [done | exact Ha].
Qed.

Lemma lstrip_of_headed p s : headed p s -> Py.lstrip p s = s.
Proof. destruct s as [|a s]; simpl; [done|]. by intros ->. Qed.

Lemma rstrip_headed p s : headed p s -> headed p (Py.rstrip p s).
Proof.
  destruct s as [|a s]; simpl; [done|]. intros Ha.
  destruct (Py.rstrip p s); [by rewrite Ha | done].
Qed.

Lemma rstrip_idempotent p s : Py.rstrip p (Py.rstrip p s) = Py.rstrip p s.
Proof.
  induction s as [|a s IH]; simpl; [done|].
  destruct (Py.rstrip p s) as [|b r] eqn:Hr.
  - destruct (p a) eqn:Ha; simpl; [done | by rewrite Ha].
  - change (Py.rstrip p (String a (String b r)))
      with (match Py.rstrip p (String b r) with
            | EmptyString =>
                if p a then EmptyString else String a EmptyString
            | r' => String a r'
            end).
    by rewrite IH.
Qed.

Lemma strip_idempotent s : Py.strip (Py.strip s) = Py.strip s.
Proof.
  unfold Py.strip.
  rewrite (lstrip_of_headed _ (Py.rstrip _ _)).
  - apply rstrip_idempotent.
  - apply rstrip_headed, lstrip_headed.
Qed.

Lemma find_full_name_stripped row fn :
  find_full_name row = Some fn -> Py.strip fn = fn.
Proof.
  induction row as [|part row IH]; simpl; [done|].
  destruct (_ && _); [|done]. intros [= <-]. apply strip_idempotent.
Qed.

Lemma length_removelast_lt {A} (l : list A) n :
  (length (removelast l) < n)%nat -> (length l < S n)%nat.
Proof.
  rewrite removelast_firstn_len, length_take. lia.
Qed.

(** ** Malformed paths *)

Section PathFacts.

Variable lim : nat.

(** C4, as the code has it: a row whose path, split on backslash with its
    leading and trailing backslashes still in place, leaves fewer than 2
    segments once the last one is dropped is rejected as malformed: an
    entry is logged for its line and the mapping is left as it was. *)
Theorem short_path_is_rejected row full_name sn st n :
  find_full_name row = Some full_name ->
  (length (removelast (Py.split backslash full_name)) < 2)%nat ->
  extract lim row = Rejected FullNameMalformed
  /\ snd (process_row lim (sn, st) (n, row))
     = {| folder_data := folder_data st;
          error_log := error_log st ++ [Skipped n FullNameMalformed] |}.
Proof.
  intros Hfn Hlen%length_removelast_lt.
  assert (extract lim row = Rejected FullNameMalformed) as Hx.
  { unfold extract.
    rewrite Hfn, (find_full_name_truthy _ _ Hfn),
      (find_full_name_stripped _ _ Hfn). simpl.
    apply Nat.ltb_lt in Hlen. by rewrite Hlen. }
  split; [done|].
  unfold process_row, learn_server_name.
  destruct row as [|first row]; [done|].
  destruct (_ || _); by rewrite Hx.
Qed.

End PathFacts.

(** ** Splitting and joining *)

Lemma app_String a s t : String a s +:+ t = String a (s +:+ t).
Proof. reflexivity. Qed.

Lemma app_Empty t : EmptyString +:+ t = t.
Proof. reflexivity. Qed.

Lemma contains_app c s t :
  Py.contains c (s +:+ t) = Py.contains c s || Py.contains c t.
Proof.
  induction s as [|a s IH]; [done|].
  rewrite app_String. simpl. by destruct (Ascii.eqb a c).
Qed.

Lemma contains_String c a s :
  Py.contains c (String a s) = Ascii.eqb a c || Py.contains c s.
Proof. simpl. by destruct (Ascii.eqb a c). Qed.

Lemma split_no_sep sep s :
  Py.contains sep s = false -> Py.split sep s = [s].
Proof.
  induction s as [|a s IH]; simpl; [done|].
  destruct (Ascii.eqb a sep); [done|]. intros Hs. by rewrite IH.
Qed.

Lemma split_app sep s t :
  Py.contains sep s = false ->
  Py.split sep (s +:+ String sep t) = s :: Py.split sep t.
Proof.
  induction s as [|a s IH]; intros Hs.
  - rewrite app_Empty. simpl. by rewrite Ascii.eqb_refl.
  - rewrite app_String. simpl in *.
    destruct (Ascii.eqb a sep); [done|]. by rewrite IH.
Qed.

(** Splitting what was joined gives the segments back. *)
Lemma split_join sep l :
  l <> [] ->
  Forall (fun seg => Py.contains sep seg = false) l ->
  Py.split sep (Py.join (String sep EmptyString) l) = l.
Proof.
  intros Hl Hsegs. induction Hsegs as [|x l Hx Hrest IH]; [done|].
  destruct l as [|y l].
  - simpl. by apply split_no_sep.
  - change (Py.join (String sep EmptyString) (x :: y :: l))
      with (x +:+ String sep (Py.join (String sep EmptyString) (y :: l))).
    rewrite split_app by done. by rewrite IH.
Qed.

Lemma rstrip_app p s c t :
  p c = false ->
  Py.rstrip p (s +:+ String c t) = s +:+ String c (Py.rstrip p t).
Proof.
  intros Hc. induction s as [|a s IH].
  - rewrite !app_Empty. simpl. destruct (Py.rstrip p t); by rewrite ?Hc.
  - rewrite !app_String. simpl. rewrite IH. by destruct s.
Qed.

Lemma rstrip_clean c s :
  Py.contains c s = false -> Py.rstrip (Ascii.eqb c) s = s.
Proof.
  induction s as [|a s IH]; simpl; [done|].
  rewrite (Ascii.eqb_sym c a). destruct (Ascii.eqb a c); [done|].
  intros Hs. rewrite IH by done. by destruct s.
Qed.

Lemma ends_clean_cons p a s : ends_clean p s -> ends_clean p (String a s).
Proof.
  intros [Hs Hne]. split; [|done]. simpl. rewrite Hs. by destruct s.
Qed.

Lemma ends_clean_app p s t : ends_clean p t -> ends_clean p (s +:+ t).
Proof.
  intros Ht. induction s as [|a s IH]; [done|].
  rewrite app_String. by apply ends_clean_cons.
Qed.

Lemma ends_clean_segment c s :
  Py.contains c s = false -> s <> EmptyString -> ends_clean (Ascii.eqb c) s.
Proof. intros Hs Hne. split; [by apply rstrip_clean | done]. Qed.

Lemma headed_segment c s t :
  Py.contains c s = false -> s <> EmptyString ->
  headed (Ascii.eqb c) (s +:+ t).
Proof.
  destruct s as [|a s]; [done|]. intros Hs _. rewrite app_String. simpl in *.
  rewrite Ascii.eqb_sym. by destruct (Ascii.eqb a c).
Qed.

(** ** Decomposition of a path *)

Lemma rstrip_String p c t :
  p c = false -> Py.rstrip p (String c t) = String c (Py.rstrip p t).
Proof. apply (rstrip_app p EmptyString). Qed.

Lemma join_cons sep x y l :
  Py.join sep (x :: y :: l) = x +:+ sep +:+ Py.join sep (y :: l).
Proof. reflexivity. Qed.

Lemma rstrip_join_last p sep l x :
  p sep = false -> l <> [] ->
  Py.rstrip p (Py.join (String sep EmptyString) (l ++ [x]))
  = Py.join (String sep EmptyString) (l ++ [Py.rstrip p x]).
Proof.
  intros Hsep Hl. induction l as [|y l IH]; [done|].
  destruct l as [|z l].
  - change (Py.rstrip p (y +:+ String sep x) = y +:+ String sep (Py.rstrip p x)).
    by apply rstrip_app.
  - change (Py.rstrip p
              (y +:+ String sep
                 (Py.join (String sep EmptyString) ((z :: l) ++ [x])))
            = y +:+ String sep
                (Py.join (String sep EmptyString) ((z :: l) ++ [Py.rstrip p x]))).
    rewrite rstrip_app by done. by rewrite IH.
Qed.

Lemma contains_join_last c sep l x :
  Py.contains c x = true -> Py.contains c (Py.join sep (l ++ [x])) = true.
Proof.
  intros Hx. induction l as [|y l IH]; [done|].
  destruct l as [|z l].
  - change (Py.contains c (y +:+ sep +:+ x) = true).
    by rewrite !contains_app, Hx, !orb_true_r.
  - change (Py.contains c (y +:+ sep +:+ Py.join sep ((z :: l) ++ [x])) = true).
    by rewrite !contains_app, IH, !orb_true_r.
Qed.

Lemma ends_clean_join p sep l :
  l <> [] -> ends_clean p (List.last l EmptyString) ->
  ends_clean p (Py.join sep l).
Proof.
  intros Hl. induction l as [|y l IH]; [done|].
  destruct l as [|z l]; [done|]. intros Hlast.
  rewrite join_cons. do 2 apply ends_clean_app. by apply IH.
Qed.

Lemma headed_join c sep x l :
  Py.contains c x = false -> x <> EmptyString ->
  headed (Ascii.eqb c) (Py.join sep (x :: l)).
Proof.
  intros Hx Hne. destruct l as [|y l].
  - destruct x as [|a x]; [done|]. simpl in *.
    rewrite Ascii.eqb_sym. by destruct (Ascii.eqb a c).
  - rewrite join_cons. by apply headed_segment.
Qed.

Lemma last_nonempty_In {A} (l : list A) d : l <> [] -> In (List.last l d) l.
Proof.
  intros Hl. rewrite (app_removelast_last d Hl) at 2.
  apply in_or_app. right. by left.
Qed.

Lemma unc_path_unfold dirs leaf :
  dirs <> [] ->
  unc_path dirs leaf
  = String backslash (String backslash (Py.join "\" (dirs ++ [leaf]))).
Proof. by destruct dirs. Qed.

Lemma strip_unc_path dirs leaf :
  dirs <> [] ->
  Py.strip (unc_path dirs leaf) = unc_path dirs (Py.rstrip Py.isspace leaf).
Proof.
  intros Hdirs. rewrite !unc_path_unfold by done. unfold Py.strip.
  change (Py.lstrip Py.isspace (String backslash ?s)) with (String backslash s).
  rewrite !rstrip_String by reflexivity.
  by rewrite (rstrip_join_last _ backslash).
Qed.

Lemma contains_unc_path c dirs leaf :
  Py.contains c leaf = true -> Py.contains c (unc_path dirs leaf) = true.
Proof.
  intros Hleaf. unfold unc_path.
  by apply (contains_join_last c "\" (EmptyString :: EmptyString :: dirs)).
Qed.

(** The directory of the path, as line 108 leaves it. *)
Lemma directory_unc_path dirs :
  Forall (fun seg => Py.contains backslash seg = false) dirs ->
  hd EmptyString dirs <> EmptyString ->
  List.last dirs EmptyString <> EmptyString ->
  Py.strip_char backslash (Py.join "\" (EmptyString :: EmptyString :: dirs))
  = Py.join "\" dirs.
Proof.
  intros Hsegs Hhd Hlast. destruct dirs as [|d dirs]; [done|].
  unfold Py.strip_char.
  change (Py.join "\" (EmptyString :: EmptyString :: d :: dirs))
    with (String backslash (String backslash (Py.join "\" (d :: dirs)))).
  change (Py.lstrip (Ascii.eqb backslash)
            (String backslash (String backslash ?s)))
    with (Py.lstrip (Ascii.eqb backslash) s).
  apply Forall_cons in Hsegs as Hd. destruct Hd as [Hd _].
  rewrite lstrip_of_headed by by apply headed_join.
  apply ends_clean_join; [done|]. apply ends_clean_segment; [|done].
  rewrite Forall_forall in Hsegs. apply Hsegs, list_elem_of_In.
  by apply last_nonempty_In.
Qed.

Section UncFacts.

Variable lim : nat.

Lemma find_full_name_first (pre : Row) (part : string) (post : Row) :
  Forall (fun f => is_path_field f = false) pre ->
  is_path_field part = true ->
  find_full_name (pre ++ part :: post) = Some (Py.strip part).
Proof.
  unfold is_path_field. intros Hpre Hpart.
  induction Hpre as [|f pre Hf _ IH]; simpl.
  - by rewrite Hpart.
  - by rewrite Hf.
Qed.

(** What lines 92-133 make of a row whose path field is
    [\\d0\d1\...\dn\leaf]: the [parts] of line 111 are [d0 .. dn]. *)
Lemma extract_unc_path row dirs leaf S :
  Forall (fun seg => Py.contains backslash seg = false) (dirs ++ [leaf]) ->
  hd EmptyString dirs <> EmptyString ->
  List.last dirs EmptyString <> EmptyString ->
  find_full_name row = Some (Py.strip (unc_path dirs leaf)) ->
  extract_length lim row = Some S ->
  extract lim row
  = Attributed (folder_key_of (Py.join "\" dirs) dirs) S
      (if (3 <? length dirs)%nat then Some (subfolders_of_parts dirs)
       else None).
Proof.
  intros [Hdirs Hleaf']%Forall_app Hhd Hlast Hfn Hlen.
  assert (dirs <> []) as Hne by by destruct dirs.
  assert (Py.contains backslash (Py.rstrip Py.isspace leaf) = false) as Hleaf.
  { rewrite contains_rstrip by reflexivity. by apply Forall_cons in Hleaf' as []. }
  unfold extract.
  rewrite Hfn, (find_full_name_truthy _ _ Hfn), strip_idempotent.
  cbn [negb]. rewrite strip_unc_path by done. unfold unc_path.
  rewrite (split_join backslash); cycle 1.
  { done. }
  { do 2 (constructor; [done|]). apply Forall_app. by repeat constructor. }
  change (EmptyString :: EmptyString :: dirs ++ [Py.rstrip Py.isspace leaf])
    with ((EmptyString :: EmptyString :: dirs)
            ++ [Py.rstrip Py.isspace leaf]).
  rewrite removelast_last.
  assert ((length ((EmptyString :: EmptyString :: dirs)
                     ++ [Py.rstrip Py.isspace leaf]) <? 3)%nat = false) as ->.
  { apply Nat.ltb_ge. rewrite length_app. simpl. lia. }
  rewrite directory_unc_path by done.
  rewrite (split_join backslash) by done.
  by rewrite Hlen.
Qed.

End UncFacts.

Lemma counted_nonneg fd key :
  counted fd -> 0 <= files_of key fd /\ 0 <= size_of key fd.
Proof.
  unfold files_of, size_of. intros Hfd.
  destruct (bucket_of key fd) as [b|] eqn:Hb; simpl; [|lia].
  apply bucket_of_Some_In in Hb. unfold counted in Hfd.
  rewrite Forall_forall in Hfd. apply list_elem_of_In, Hfd in Hb.
  simpl in Hb. lia.
Qed.

Section UncRow.

Variable lim : nat.

(** C3, as the code has it: a row whose path field is
    [\\host\share\top\sub1\sub2\file.ext] and whose size is [S] raises the
    file count of the key [(\\host\share, top)] by one, to at least 1,
    adds [S] to its size, and adds to its subfolders the paths below the
    top-level folder, [sub1] and (unless [sub2] holds a period)
    [sub1\sub2]: paths relative to [top], without [top] in front. *)
Theorem unc_row_feeds_its_bucket (pre post : Row)
    host share top sub1 sub2 leaf S sn st n :
  Forall (fun seg => Py.contains backslash seg = false)
    [host; share; top; sub1; sub2; leaf] ->
  host <> EmptyString -> sub2 <> EmptyString ->
  Py.contains period leaf = true ->
  Forall (fun f => is_path_field f = false) pre ->
  let row := pre ++ unc_path [host; share; top; sub1; sub2] leaf :: post in
  extract_length lim row = Some S ->
  counted (folder_data st) ->
  let key := ("\\" +:+ host +:+ "\" +:+ share, top) in
  let fd := folder_data st in
  let fd' := folder_data (snd (process_row lim (sn, st) (n, row))) in
  1 <= files_of key fd'
  /\ files_of key fd' = files_of key fd + 1
  /\ size_of key fd' = size_of key fd + S
  /\ S <= size_of key fd'
  /\ sub1 ∈ subfolders_of key fd'
  /\ subfolders_of key fd'
     = subfolders_of key fd
       ∪ list_to_set (if Py.contains period sub2 then [sub1]
                      else [sub1; sub1 +:+ "\" +:+ sub2]).
Proof.
  intros Hsegs Hhost Hsub2 Hleaf Hpre row HS Hst key fd fd'.
  assert (find_full_name row
          = Some (Py.strip (unc_path [host; share; top; sub1; sub2] leaf)))
    as Hfn.
  { apply find_full_name_first; [done|]. unfold is_path_field.
    rewrite (contains_unc_path period) by done.
    by rewrite unc_path_unfold. }
  pose proof (extract_unc_path lim row [host; share; top; sub1; sub2] leaf S
                Hsegs Hhost Hsub2 Hfn HS) as Hx.
  assert (extract lim row
          = Attributed key S
              (Some (if Py.contains period sub2 then [sub1]
                     else [sub1; sub1 +:+ "\" +:+ sub2]))) as Hx'.
  { rewrite Hx. unfold subfolders_of_parts. cbn [List.last].
    by destruct (Py.contains period sub2). }
  subst fd'. rewrite process_row_folder_data. unfold apply_row.
  rewrite Hx'.
  destruct (store_same_key key S
              (Some (if Py.contains period sub2 then [sub1]
                     else [sub1; sub1 +:+ "\" +:+ sub2])) fd)
    as (Hfiles & Hsize & Hsubs).
  fold fd. rewrite Hfiles, Hsize, Hsubs.
  destruct (counted_nonneg fd key Hst) as [Hf0 Hs0].
  repeat split; [lia | lia |].
  simpl. destruct (Py.contains period sub2).
  - apply elem_of_union_r, elem_of_list_to_set. by left.
  - apply elem_of_union_r, elem_of_list_to_set. by left.
Qed.

Lemma length_generated_subfolders parts :
  length (generated_subfolders parts) = (length parts - 3)%nat.
Proof. unfold generated_subfolders. by rewrite length_map, length_seq. Qed.

Lemma deepest_generated_subfolder parts :
  (3 < length parts)%nat ->
  In (Py.join "\" (drop 3 parts)) (generated_subfolders parts).
Proof.
  intros Hlen. unfold generated_subfolders. apply in_map_iff.
  exists (length parts - 1)%nat. split.
  - unfold Py.slice. f_equal. apply take_ge. rewrite length_drop. lia.
  - apply in_seq. lia.
Qed.

(** C2, as the code has it: for a path of more than 3 directory segments
    whose last directory segment holds no period, every generated
    subfolder entry reaches the bucket, one for each segment below the
    top-level folder and the deepest among them, whether the leaf holds a
    period or not. *)
Theorem plain_directory_keeps_every_subfolder (pre post : Row)
    (dirs : list string) leaf S sn st n :
  (3 < length dirs)%nat ->
  Forall (fun seg => Py.contains backslash seg = false) (dirs ++ [leaf]) ->
  hd EmptyString dirs <> EmptyString ->
  List.last dirs EmptyString <> EmptyString ->
  Py.contains period (List.last dirs EmptyString) = false ->
  is_path_field (unc_path dirs leaf) = true ->
  Forall (fun f => is_path_field f = false) pre ->
  let row := pre ++ unc_path dirs leaf :: post in
  extract_length lim row = Some S ->
  let key := folder_key_of (Py.join "\" dirs) dirs in
  let fd' := folder_data (snd (process_row lim (sn, st) (n, row))) in
  extract lim row = Attributed key S (Some (generated_subfolders dirs))
  /\ length (generated_subfolders dirs) = (length dirs - 3)%nat
  /\ subfolders_of key fd'
     = subfolders_of key (folder_data st)
       ∪ list_to_set (generated_subfolders dirs)
  /\ Py.join "\" (drop 3 dirs) ∈ subfolders_of key fd'.
Proof.
  intros Hlen Hsegs Hhd Hlast Hdot Hpath Hpre row HS key fd'.
  assert (find_full_name row = Some (Py.strip (unc_path dirs leaf))) as Hfn
    by by apply find_full_name_first.
  assert (extract lim row
          = Attributed key S (Some (generated_subfolders dirs))) as Hx.
  { rewrite (extract_unc_path lim row dirs leaf S) by done.
    apply Nat.ltb_lt in Hlen. rewrite Hlen.
    unfold subfolders_of_parts. by rewrite Hdot. }
  assert (subfolders_of key fd'
          = subfolders_of key (folder_data st)
            ∪ list_to_set (generated_subfolders dirs)) as Hsubs.
  { subst fd'. rewrite process_row_folder_data. unfold apply_row. rewrite Hx.
    by destruct (store_same_key key S (Some (generated_subfolders dirs))
                   (folder_data st)) as (_ & _ & ->). }
  split; [done|]. split; [apply length_generated_subfolders|].
  split; [done|]. rewrite Hsubs.
  apply elem_of_union_r, elem_of_list_to_set, list_elem_of_In.
  by apply deepest_generated_subfolder.
Qed.

End UncRow.

(** ** The program on concrete inputs *)

Example split_unc :
  Py.split backslash "\\host\share\f.txt"
  = [EmptyString; EmptyString; "host"; "share"; "f.txt"].
Proof. reflexivity. Qed.

Example strip_spaces : Py.strip "  a b  " = "a b".
Proof. reflexivity. Qed.

Example strip_backslashes :
  Py.strip_char backslash "\\host\share\" = "host\share".
Proof. reflexivity. Qed.

Example unc_path_literal :
  unc_path ["host"; "share"; "top"; "sub1"; "sub2"] "file.ext"
  = "\\host\share\top\sub1\sub2\file.ext".
Proof. reflexivity. Qed.

Example int_of_digits : Py.int 4300 "0120" = Some 120.
Proof. reflexivity. Qed.

Example quoted_size : is_size_field "'2048'" = true.
Proof. reflexivity. Qed.

Example sentinel_folder :
  extract 4300 ["SRV1"; "\\SRV1\ShareA\file.txt"; "7"]
  = Attributed ("\\SRV1\ShareA", "Not Applicable") 7 None.
Proof. reflexivity. Qed.

Example two_reports_rows :
  fst (process_csv 4300
         [["Server"; "FullName"; "Length"];
          ["SRV1"; "\\SRV1\ShareA\Reports\2023\file1.txt"; "1000"];
          ["SRV1"; "\\SRV1\ShareA\Reports\2024\file2.txt"; "2000"]])
  = Some [{| Server_Name := "Unknown"; Drive := "\\SRV1\ShareA";
             Top_Level_Folder := "Reports"; Data_GB := 0;
             Number_of_SubFolders := 2; Number_of_Files := 2 |}].
Proof. vm_compute. reflexivity. Qed.

(** A size field of 5000 digits: [int] refuses it under the default limit,
    and the row is logged; with the limit off the row is attributed, and
    line 66 cannot convert its bucket. *)
Example huge_size_and_the_digit_limit :
  let header := ["Server"; "FullName"; "Length"] in
  let row :=
    ["SRV1"; "\\SRV1\ShareA\Reports\2023\file1.txt";
     replicate_char 5000 "9"] in
  process_csv 4300 [header; row]
  = (Some [],
     {| folder_data := []; error_log := [Skipped 2 (Raised ValueError)] |})
  /\ (let run := process_csv 0 [header; row] in
      (fst run, error_log (snd run))
      = (None, [ErrorOccurred; ErrorProcessing OverflowError])).
Proof.
  intros header row. split; vm_compute; reflexivity.
Qed.

(** C1: on an input whose only data row is attributed to a key and starts
    with the field [SRV1], the loop of [process_chunk] learns [SRV1] in its
    own local variable, and the report still carries the server name
    [Unknown]; and what the loop learns is the first field of the first
    row of the chunk, attributed or not. *)
Theorem report_server_name_stays_unknown :
  let row := ["SRV1"; "\\SRV1\ShareA\Reports\2023\file1.txt"; "1000"] in
  let input := [["Server"; "FullName"; "Length"]; row] in
  extract 4300 row = Attributed ("\\SRV1\ShareA", "Reports") 1000 (Some ["2023"])
  /\ fst (process_chunk_loop 4300 [(2%nat, row)] initial "Unknown") = "SRV1"
  /\ fmap (map Server_Name) (fst (process_csv 4300 input)) = Some ["Unknown"]
  /\ extract 4300 ["BAD"; "x"; "y"] = Rejected MissingFullName
  /\ fst (process_chunk_loop 4300 [(2%nat, ["BAD"; "x"; "y"]); (3%nat, row)]
            initial "Unknown") = "BAD".
Proof. vm_compute. repeat split. Qed.

(** C2 fails as stated: the leaf [file.ext] of this path holds a period,
    and the two generated entries, the deepest [sub1\sub2] among them, are
    all handed to the store. *)
Lemma leaf_period_discards_nothing :
  let path := "\\host\share\top\sub1\sub2\file.ext" in
  let parts := ["host"; "share"; "top"; "sub1"; "sub2"] in
  Py.contains period (List.last (Py.split backslash path) EmptyString) = true
  /\ generated_subfolders parts = ["sub1"; "sub1\sub2"]
  /\ extract 4300 ["SRV1"; path; "100"]
     = Attributed ("\\host\share", "top") 100 (Some ["sub1"; "sub1\sub2"]).
Proof. vm_compute. repeat split. Qed.

(** The other side of line 132: a leaf without a period below a directory
    [v1.2] loses the deepest entry, [sub1\v1.2]. *)
Example dotted_directory_is_dropped :
  let path := "\\host\share\top\sub1\v1.2\readme" in
  Py.contains period (List.last (Py.split backslash path) EmptyString) = false
  /\ generated_subfolders ["host"; "share"; "top"; "sub1"; "v1.2"]
     = ["sub1"; "sub1\v1.2"]
  /\ extract 4300 ["SRV1"; path; "100"]
     = Attributed ("\\host\share", "top") 100 (Some ["sub1"]).
Proof. vm_compute. repeat split. Qed.

(** C3 fails as stated: after the row of the claim, with size 100, is
    applied to the empty mapping, the subfolders of [(\\host\share, top)]
    are [sub1] and [sub1\sub2]; [top\sub1] is not among them. *)
Lemma unc_row_has_no_top_prefixed_subfolder :
  let row := ["SRV1"; "\\host\share\top\sub1\sub2\file.ext"; "100"] in
  let key := ("\\host\share", "top") in
  let fd' :=
    folder_data (snd (process_row 4300 ("Unknown", initial) (2%nat, row))) in
  find_full_name row = Some "\\host\share\top\sub1\sub2\file.ext"
  /\ extract_length 4300 row = Some 100
  /\ files_of key fd' = 1
  /\ size_of key fd' = 100
  /\ subfolders_of key fd' = {[ "sub1"; "sub1\sub2" ]}
  /\ ~ "top\sub1" ∈ subfolders_of key fd'.
Proof.
  intros row key fd'.
  split; [reflexivity|]. split; [reflexivity|].
  split; [vm_compute; reflexivity|]. split; [vm_compute; reflexivity|].
  split; [vm_compute; reflexivity|].
  vm_compute. intros H. discriminate H.
Qed.

(** C4 fails as stated: the path [\\host\file.txt] leaves one segment,
    [host], once it is stripped of backslashes, split and relieved of its
    leaf, and its row is attributed to the key [(host, Not Applicable)]
    with nothing logged. *)
Lemma host_only_path_is_attributed :
  let row := ["SRV1"; "\\host\file.txt"; "100"] in
  find_full_name row = Some "\\host\file.txt"
  /\ spec_directory_segments "\\host\file.txt" = ["host"]
  /\ (length (spec_directory_segments "\\host\file.txt") < 2)%nat
  /\ extract 4300 row = Attributed ("host", "Not Applicable") 100 None
  /\ snd (process_row 4300 ("Unknown", initial) (2%nat, row))
     = {| folder_data :=
            [(("host", "Not Applicable"),
              {| Bucket.size := 100; Bucket.subfolders := ∅;
                 Bucket.files := 1 |})];
          error_log := [] |}.
Proof.
  repeat split; try reflexivity. simpl. lia.
Qed.



(** ** The theorems at concrete inputs *)

(** The row of C3 with size 100, applied to the empty mapping. *)
Lemma unc_row_feeds_its_bucket_witness :
  let row := ["SRV1"; "\\host\share\top\sub1\sub2\file.ext"; "100"] in
  let key := ("\\host\share", "top") in
  let fd' :=
    folder_data (snd (process_row 4300 ("Unknown", initial) (2%nat, row))) in
  extract_length 4300 row = Some 100
  /\ 1 <= files_of key fd'
  /\ size_of key fd' = size_of key [] + 100
  /\ "sub1" ∈ subfolders_of key fd'.
Proof.
  intros row key fd'. split; [reflexivity|].
  destruct (unc_row_feeds_its_bucket 4300 ["SRV1"] ["100"]
              "host" "share" "top" "sub1" "sub2" "file.ext" 100
              "Unknown" initial 2%nat)
    as (H1 & _ & H3 & _ & H5 & _).
  - repeat constructor.
  - discriminate.
  - discriminate.
  - reflexivity.
  - repeat constructor.
  - reflexivity.
  - constructor.
  - split; [exact H1|]. split; [exact H3 | exact H5].
Defined.

(** A path with a single backslash is malformed. *)
Lemma short_path_is_rejected_witness :
  let row := ["SRV1"; "share\notes.txt"; "12"] in
  find_full_name row = Some "share\notes.txt"
  /\ (length (removelast (Py.split backslash "share\notes.txt")) < 2)%nat
  /\ extract 4300 row = Rejected FullNameMalformed
  /\ snd (process_row 4300 ("Unknown", initial) (2%nat, row))
     = {| folder_data := []; error_log := [Skipped 2 FullNameMalformed] |}.
Proof.
  intros row. split; [reflexivity|]. split; [simpl; lia|].
  apply (short_path_is_rejected 4300 row "share\notes.txt" "Unknown" initial 2);
    [reflexivity | simpl; lia].
Defined.


(** One attributed row, applied to the empty mapping. *)
Lemma attributed_row_adds_one_file_and_its_size_witness :
  let row := ["SRV1"; "\\host\share\top\sub1\sub2\file.ext"; "100"] in
  let key := ("\\host\share", "top") in
  let st' := snd (process_row 4300 ("Unknown", initial) (2%nat, row)) in
  extract 4300 row = Attributed key 100 (Some ["sub1"; "sub1\sub2"])
  /\ files_of key (folder_data st') = files_of key [] + 1
  /\ size_of key (folder_data st') = size_of key [] + 100
  /\ error_log st' = [].
Proof.
  intros row key st'. split; [reflexivity|].
  destruct (proj1 (attributed_row_adds_one_file_and_its_size 4300)
              "Unknown" initial 2%nat row key 100
              (Some ["sub1"; "sub1\sub2"]) eq_refl)
    as (_ & _ & Hfiles & Hsize & Hlog).
  split; [exact Hfiles|]. split; [exact Hsize | exact Hlog].
Defined.

(** A row whose first numeric field is quoted, and a row without one. *)
Lemma size_is_first_numeric_field_witness :
  let row := ["SRV1"; "\\host\share\top\file.ext"; "x1"; "'42'"; "7"] in
  let bare := ["SRV1"; "\\host\share\top\file.ext"; "n/a"] in
  extract 4300 row = Attributed ("\\host\share", "top") 42 None
  /\ ((exists i part,
          row !! i = Some part
          /\ is_size_field part = true
          /\ (forall j p, (j < i)%nat -> row !! j = Some p ->
                          is_size_field p = false)
          /\ 42 = Py.int_acc 0
                    (Py.strip_char squote (Py.strip_char dquote part)))
      \/ (Forall (fun part => is_size_field part = false) row /\ 42 = 0))
  /\ find_full_name bare = Some "\\host\share\top\file.ext"
  /\ Forall (fun part => is_size_field part = false) bare
  /\ exists key subs, extract 4300 bare = Attributed key 0 subs.
Proof.
  intros row bare. split; [reflexivity|]. split.
  { exact (proj1 (size_is_first_numeric_field 4300) row
             ("\\host\share", "top") 42 None eq_refl). }
  split; [reflexivity|].
  assert (Forall (fun part => is_size_field part = false) bare) as Hbare
    by repeat constructor.
  split; [exact Hbare|].
  destruct (proj2 (size_is_first_numeric_field 4300) bare
              "\\host\share\top\file.ext" eq_refl) as (key & subs & Hx & _).
  - simpl. lia.
  - exact Hbare.
  - exists key, subs. exact Hx.
Defined.


(** Five directory segments, none with a period, and a leaf with one. *)
Lemma plain_directory_keeps_every_subfolder_witness :
  let dirs := ["host"; "share"; "top"; "sub1"; "sub2"] in
  let row := ["SRV1"; "\\host\share\top\sub1\sub2\file.ext"; "100"] in
  let key := ("\\host\share", "top") in
  let fd' :=
    folder_data (snd (process_row 4300 ("Unknown", initial) (2%nat, row))) in
  Py.contains period "file.ext" = true
  /\ extract 4300 row = Attributed key 100 (Some (generated_subfolders dirs))
  /\ "sub1\sub2" ∈ subfolders_of key fd'.
Proof.
  intros dirs row key fd'. split; [reflexivity|].
  destruct (plain_directory_keeps_every_subfolder 4300 ["SRV1"] ["100"]
              dirs "file.ext" 100 "Unknown" initial 2%nat)
    as (Hx & _ & _ & Hdeep).
  - simpl. lia.
  - repeat constructor.
  - discriminate.
  - discriminate.
  - reflexivity.
  - reflexivity.
  - repeat constructor.
  - reflexivity.
  - split; [exact Hx | exact Hdeep].
Defined.


(** * Further properties of the script *)

(** ** Which rows are turned down, and why *)

Lemma find_full_name_None row :
  find_full_name row = None <-> Forall (fun f => is_path_field f = false) row.
Proof.
  unfold is_path_field. induction row as [|part row IH]; simpl.
  - split; [constructor | done].
  - destruct (_ && _) eqn:Hp.
    + split; [done|]. intros H. apply Forall_cons in H as [H _]. congruence.
    + rewrite IH. split; [by constructor | by intros [_ ?]%Forall_cons].
Qed.

Lemma find_full_name_Some_inv row fn :
  find_full_name row = Some fn ->
  exists pre part post,
    row = pre ++ part :: post
    /\ Forall (fun f => is_path_field f = false) pre
    /\ is_path_field part = true
    /\ fn = Py.strip part.
Proof.
  unfold is_path_field. induction row as [|part row IH]; simpl; [done|].
  destruct (_ && _) eqn:Hp.
  - intros [= <-]. exists [], part, row. by repeat split.
  - intros (pre & part' & post & -> & Hpre & Hpart & ->)%IH.
    exists (part :: pre), part', post. repeat split; [by constructor | done].
Qed.

Lemma split_nonempty sep s : Py.split sep s <> [].
Proof.
  destruct s as [|a s]; simpl; [done|].
  destruct (Ascii.eqb a sep); [done|]. by destruct (Py.split sep s).
Qed.

(** A string has one segment more than it has separators. *)
Lemma length_split sep s :
  length (Py.split sep s) = S (count_char sep s).
Proof.
  induction s as [|a s IH]; simpl; [done|].
  destruct (Ascii.eqb a sep); simpl; [by rewrite IH|].
  destruct (Py.split sep s) eqn:Hs; [by destruct (split_nonempty sep s)|].
  exact IH.
Qed.

Lemma count_lstrip p c s :
  p c = false -> count_char c (Py.lstrip p s) = count_char c s.
Proof.
  intros Hc. induction s as [|a s IH]; simpl; [done|].
  destruct (p a) eqn:Ha; [|done].
  rewrite IH. destruct (Ascii.eqb_spec a c) as [->|]; [congruence | done].
Qed.

Lemma count_rstrip p c s :
  p c = false -> count_char c (Py.rstrip p s) = count_char c s.
Proof.
  intros Hc. induction s as [|a s IH]; simpl; [done|].
  destruct (Py.rstrip p s) as [|b r] eqn:Hr.
  - simpl in IH. rewrite <- IH.
    destruct (p a) eqn:Ha; simpl; [|lia].
    destruct (Ascii.eqb_spec a c) as [->|]; [congruence | done].
  - rewrite <- IH. reflexivity.
Qed.

Lemma count_strip s :
  count_char backslash (Py.strip s) = count_char backslash s.
Proof.
  unfold Py.strip. by rewrite count_rstrip, count_lstrip by reflexivity.
Qed.

Lemma contains_count c s :
  Py.contains c s = true <-> (0 < count_char c s)%nat.
Proof.
  induction s as [|a s IH]; simpl; [split; [done | lia]|].
  destruct (Ascii.eqb a c); [split; [lia | done]|]. by rewrite IH.
Qed.

Section Verdicts.

Variable lim : nat.

(** X1: a row is turned down for a missing FullName exactly when none of
    its fields holds both a backslash and a period. *)
Theorem missing_full_name_iff row :
  extract lim row = Rejected MissingFullName
  <-> Forall (fun f => is_path_field f = false) row.
Proof.
  split.
  - unfold extract. destruct (find_full_name row) as [fn|] eqn:Hfn.
    + rewrite (find_full_name_truthy _ _ Hfn). simpl.
      destruct (_ <? 3)%nat; [done|].
      by destruct (extract_length lim row).
    + intros _. by apply find_full_name_None.
  - intros Hrow%find_full_name_None. unfold extract. by rewrite Hrow.
Qed.

(** X2: a row is turned down for a malformed FullName exactly when its
    first field holding a backslash and a period holds only that one
    backslash. *)
Theorem malformed_full_name_iff row :
  extract lim row = Rejected FullNameMalformed
  <-> exists pre part post,
        row = pre ++ part :: post
        /\ Forall (fun f => is_path_field f = false) pre
        /\ is_path_field part = true
        /\ count_char backslash part = 1%nat.
Proof.
  split.
  - unfold extract. destruct (find_full_name row) as [fn|] eqn:Hfn; [|done].
    rewrite (find_full_name_truthy _ _ Hfn),
      (find_full_name_stripped _ _ Hfn). simpl.
    destruct (_ <? 3)%nat eqn:Hlen;
      [|by destruct (extract_length lim row)].
    intros _. apply Nat.ltb_lt in Hlen. rewrite length_split in Hlen.
    apply find_full_name_Some_inv in Hfn
      as (pre & part & post & -> & Hpre & Hpart & ->).
    exists pre, part, post. repeat split; [done..|].
    rewrite count_strip in Hlen.
    unfold is_path_field in Hpart. apply andb_true_iff in Hpart as [Hb _].
    apply contains_count in Hb. lia.
  - intros (pre & part & post & -> & Hpre & Hpart & Hcount).
    unfold extract.
    pose proof (find_full_name_first pre part post Hpre Hpart) as Hfn.
    rewrite Hfn, (find_full_name_truthy _ _ Hfn), strip_idempotent. simpl.
    rewrite length_split, count_strip, Hcount. reflexivity.
Qed.

End Verdicts.

(** ** What a run adds up to, key by key *)

Lemma fold_left_permutation {A B} (f : B -> A -> B) (l l' : list A) :
  (forall b x y, f (f b x) y = f (f b y) x) ->
  Permutation l l' -> forall b, fold_left f l b = fold_left f l' b.
Proof.
  intros Hcomm. induction 1 as [|x l l' _ IH|x y l|l l' l'' _ IH1 _ IH2];
    intros b; simpl.
  - done.
  - apply IH.
  - by rewrite Hcomm.
  - by rewrite IH1, IH2.
Qed.

Lemma passing_permutation rows rows' :
  Permutation rows rows' -> Permutation (passing rows) (passing rows').
Proof.
  unfold passing.
  induction 1 as [|x l l' _ IH|x y l|l l' l'' _ IH1 _ IH2]; simpl.
  - done.
  - destruct (negb _); [by constructor | done].
  - destruct (negb (too_few_columns x)), (negb (too_few_columns y));
      (done || by constructor).
  - by etrans.
Qed.

Lemma stored_comm n1 s1 n2 s2 b :
  stored n1 s1 (stored n2 s2 b) = stored n2 s2 (stored n1 s1 b).
Proof.
  unfold stored, Bucket.add_file, Bucket.add_size, Bucket.update_subfolders.
  destruct s1 as [l1|], s2 as [l2|]; simpl; f_equal; try lia.
  rewrite <- !(assoc_L (∪)). f_equal. apply (comm_L (∪)).
Qed.

Lemma assoc_permutation (fd fd' : FolderData) :
  List.NoDup (map fst fd) -> List.NoDup (map fst fd') ->
  (forall k, bucket_of k fd = bucket_of k fd') ->
  Permutation fd fd'.
Proof.
  intros Hnd Hnd' Hsame.
  apply Permutation.NoDup_Permutation.
  - by eapply NoDup_map_inv.
  - by eapply NoDup_map_inv.
  - intros [k b]. split; intros Hin.
    + apply bucket_of_Some_In. rewrite <- Hsame. by apply bucket_of_In.
    + apply bucket_of_Some_In. rewrite Hsame. by apply bucket_of_In.
Qed.

Lemma bucket_of_is_Some key (fd : FolderData) :
  is_Some (bucket_of key fd) <-> In key (map fst fd).
Proof.
  induction fd as [|[k b] fd IH]; simpl.
  - split; [by intros [? ?] | done].
  - destruct (decide (k = key)) as [->|Hne].
    + split; [by left | eauto].
    + rewrite IH. split; [by right | by intros [?|?]].
Qed.

Lemma output_rows_keys sn (fd : FolderData) report :
  output_rows sn fd = Some report ->
  map (fun r => (Drive r, Top_Level_Folder r)) report = map fst fd.
Proof.
  intros Hrows%output_rows_Some.
  induction Hrows as [|item r fd report Hr _ IH]; [done|].
  apply output_row_fields in Hr as (_ & Hkey & _).
  cbn [map]. by rewrite Hkey, IH.
Qed.

Lemma output_rows_files sn (fd : FolderData) report :
  output_rows sn fd = Some report ->
  map Number_of_Files report = map (fun kb => Bucket.files (snd kb)) fd.
Proof.
  intros Hrows%output_rows_Some.
  induction Hrows as [|item r fd report Hr _ IH]; [done|].
  apply output_row_fields in Hr as (_ & _ & _ & _ & Hfiles).
  cbn [map]. by rewrite Hfiles, IH.
Qed.

(** The rows of a report follow the order of the mapping: another order
    of the same buckets gives the same rows in another order, or no report
    either. *)
Lemma output_rows_permutation sn (fd fd' : FolderData) :
  Permutation fd fd' ->
  option_Forall2 Permutation (output_rows sn fd) (output_rows sn fd').
Proof.
  unfold output_rows.
  induction 1 as [|x l l' _ IH|x y l|l l' l'' _ IH1 _ IH2].
  - by repeat constructor.
  - cbn [mapM]. destruct (output_row sn x) as [r|]; cbn; [|constructor].
    inversion IH as [k k' Hk|]; cbn; constructor. by constructor.
  - cbn [mapM].
    destruct (output_row sn x) as [r|], (output_row sn y) as [r'|],
      (mapM (output_row sn) l) as [k|]; cbn; constructor.
    apply perm_swap.
  - inversion IH1 as [k k' Hk Heq Heq'|Heq Heq'];
      rewrite <- Heq' in IH2; inversion IH2; constructor.
    by etrans.
Qed.

Lemma on_bucket_key_list f key (fd : FolderData) :
  map fst (on_bucket f key fd)
  = if decide (key ∈ map fst fd) then map fst fd else map fst fd ++ [key].
Proof.
  induction fd as [|[k b] fd IH]; cbn [on_bucket map fst].
  - destruct (decide (key ∈ [])) as [Hin|_]; [|done].
    by apply elem_of_nil in Hin.
  - destruct (decide (k = key)) as [->|Hne]; cbn [map fst].
    + destruct (decide (key ∈ key :: map fst fd)) as [_|Hout]; [done|].
      destruct Hout. by left.
    + rewrite IH. destruct (decide (key ∈ map fst fd)) as [Hin|Hout].
      * destruct (decide (key ∈ k :: map fst fd)) as [_|Hout]; [done|].
        destruct Hout. by right.
      * destruct (decide (key ∈ k :: map fst fd)) as [Hin|_]; [|done].
        apply elem_of_cons in Hin as [?|?]; [congruence | done].
Qed.

Lemma on_bucket_total (g : Bucket.t -> Z) f key (fd : FolderData) :
  g Bucket.default = 0 ->
  sum_Z (map (fun kb => g (snd kb)) (on_bucket f key fd))
  = sum_Z (map (fun kb => g (snd kb)) fd)
    + (g (f (default Bucket.default (bucket_of key fd)))
       - g (default Bucket.default (bucket_of key fd))).
Proof.
  intros Hg. induction fd as [|[k b] fd IH]; simpl.
  - lia.
  - destruct (decide (k = key)) as [->|Hne]; simpl; [lia|].
    rewrite IH. lia.
Qed.

Section Totals_facts.

Variable lim : nat.

Lemma bucket_of_apply_row key fd row :
  bucket_of key (apply_row lim fd row)
  = bucket_step lim key (bucket_of key fd) row.
Proof.
  unfold apply_row, bucket_step.
  destruct (extract lim row) as [|k n subs]; [done|].
  destruct (decide (k = key)) as [->|Hne].
  - apply bucket_of_store_eq.
  - apply bucket_of_store_ne. congruence.
Qed.

Lemma bucket_of_fold key rows fd :
  bucket_of key (fold_left (apply_row lim) rows fd)
  = fold_left (bucket_step lim key) rows (bucket_of key fd).
Proof.
  revert fd. induction rows as [|row rows IH]; intros fd; simpl; [done|].
  by rewrite IH, bucket_of_apply_row.
Qed.

Lemma bucket_step_comm key ob r1 r2 :
  bucket_step lim key (bucket_step lim key ob r1) r2
  = bucket_step lim key (bucket_step lim key ob r2) r1.
Proof.
  unfold bucket_step.
  destruct (extract lim r1) as [|k1 n1 s1], (extract lim r2) as [|k2 n2 s2];
    try done.
  destruct (decide (k1 = key)), (decide (k2 = key)); try done.
  simpl. f_equal. apply stored_comm.
Qed.

Lemma files_for_cons key r rows :
  files_for lim key (r :: rows)
  = (if attributed_to lim key r then 1 else 0) + files_for lim key rows.
Proof.
  unfold files_for. simpl. destruct (attributed_to lim key r); simpl; lia.
Qed.

Lemma size_for_cons key r rows :
  size_for lim key (r :: rows)
  = (if attributed_to lim key r then length_of lim r else 0)
    + size_for lim key rows.
Proof.
  unfold size_for. simpl. by destruct (attributed_to lim key r).
Qed.

Lemma subfolders_for_cons key r rows :
  subfolders_for lim key (r :: rows)
  = (if attributed_to lim key r then list_to_set (subfolders_from lim r)
     else ∅) ∪ subfolders_for lim key rows.
Proof.
  unfold subfolders_for. simpl. destruct (attributed_to lim key r); simpl.
  - done.
  - by rewrite union_empty_l_L.
Qed.

(** One pass, on the bucket of [key]. *)
Lemma bucket_step_effect key ob r :
  let b := default Bucket.default ob in
  let b' := default Bucket.default (bucket_step lim key ob r) in
  Bucket.files b'
  = Bucket.files b + (if attributed_to lim key r then 1 else 0)
  /\ Bucket.size b'
     = Bucket.size b + (if attributed_to lim key r then length_of lim r else 0)
  /\ Bucket.subfolders b'
     = Bucket.subfolders b
       ∪ (if attributed_to lim key r
          then list_to_set (subfolders_from lim r) else ∅)
  /\ (is_Some (bucket_step lim key ob r)
      <-> is_Some ob \/ attributed_to lim key r = true).
Proof.
  unfold bucket_step, attributed_to, length_of, subfolders_from.
  destruct (extract lim r) as [|k n subs]; simpl.
  - rewrite union_empty_r_L. repeat split; lia || tauto || idtac.
    by intros [?|?].
  - destruct (decide (k = key)) as [->|Hne].
    + rewrite bool_decide_eq_true_2 by done. simpl.
      destruct subs as [l|]; simpl; repeat split; eauto.
      by rewrite union_empty_r_L.
    + rewrite bool_decide_eq_false_2 by done.
      rewrite union_empty_r_L. repeat split; lia || tauto || idtac.
      by intros [?|?].
Qed.

Lemma fold_bucket_step_totals key rows ob :
  let b := default Bucket.default ob in
  let b' := default Bucket.default (fold_left (bucket_step lim key) rows ob) in
  Bucket.files b' = Bucket.files b + files_for lim key rows
  /\ Bucket.size b' = Bucket.size b + size_for lim key rows
  /\ Bucket.subfolders b' = Bucket.subfolders b ∪ subfolders_for lim key rows
  /\ (is_Some (fold_left (bucket_step lim key) rows ob)
      <-> is_Some ob
          \/ Exists (fun r => attributed_to lim key r = true) rows).
Proof.
  revert ob. induction rows as [|r rows IH]; intros ob; cbn [fold_left].
  - unfold files_for, size_for, subfolders_for. simpl.
    rewrite union_empty_r_L. repeat split; [lia | lia | tauto |].
    intros [?|H]; [done | inversion H].
  - destruct (IH (bucket_step lim key ob r)) as (IH1 & IH2 & IH3 & IH4).
    destruct (bucket_step_effect key ob r) as (H1 & H2 & H3 & H4).
    rewrite files_for_cons, size_for_cons, subfolders_for_cons.
    rewrite IH1, IH2, IH3, H1, H2, H3, IH4, H4, Exists_cons.
    repeat split; [lia | lia | by rewrite (assoc_L (∪)) | tauto | tauto].
Qed.

(** X3: for every key, the final mapping holds what the rows attributed to
    the key add up to: their number as the file count, the sum of their
    sizes as the size and the union of their subfolder entries; and the
    key is in the mapping exactly when there is such a row. *)
Theorem final_bucket_is_sum_of_its_rows cs input key :
  let fd := folder_data (snd (process_csv_with lim cs input)) in
  let rows := passing (tail input) in
  files_of key fd = files_for lim key rows
  /\ size_of key fd = size_for lim key rows
  /\ subfolders_of key fd = subfolders_for lim key rows
  /\ (is_Some (bucket_of key fd)
      <-> Exists (fun r => attributed_to lim key r = true) rows).
Proof.
  intros fd rows. unfold files_of, size_of, subfolders_of. subst fd.
  rewrite process_csv_with_folder_data, aggregate_folder_data.
  fold (passing (tail input)).
  fold rows. rewrite bucket_of_fold.
  change (bucket_of key []) with (@None Bucket.t).
  destruct (fold_bucket_step_totals key rows None) as (H1 & H2 & H3 & H4).
  cbn [default from_option id] in H1, H2, H3.
  rewrite H1, H2, H3, H4. simpl.
  repeat split; try lia; [apply union_empty_l_L | | tauto].
  intros [[? ?]|?]; done.
Qed.

End Totals_facts.

(** ** The rows of the report *)

Section Report_rows.

Variable lim : nat.

Lemma fold_apply_row_key_list rows fd :
  map fst (fold_left (apply_row lim) rows fd)
  = fold_left (fun seen k => if decide (k ∈ seen) then seen else seen ++ [k])
      (omap (key_of lim) rows) (map fst fd).
Proof.
  revert fd. induction rows as [|row rows IH]; intros fd; [done|].
  cbn [fold_left omap list_omap]. rewrite IH. unfold apply_row, key_of.
  destruct (extract lim row) as [|k n subs]; [done|].
  cbn [fold_left]. by rewrite store_on_bucket, on_bucket_key_list.
Qed.

Lemma filter_valid_row rows :
  List.filter (valid_row lim) rows
  = List.filter (fun r => negb (rejected_row lim r)) (passing rows).
Proof.
  unfold passing, valid_row, rejected_row.
  induction rows as [|row rows IH]; [done|]. cbn [List.filter].
  destruct (too_few_columns row); cbn [negb andb List.filter]; [done|].
  destruct (extract lim row); cbn [negb]; by rewrite IH.
Qed.

Lemma apply_row_totals fd row :
  sum_Z (map (fun kb => Bucket.files (snd kb)) (apply_row lim fd row))
  = sum_Z (map (fun kb => Bucket.files (snd kb)) fd)
    + (if rejected_row lim row then 0 else 1)
  /\ sum_Z (map (fun kb => Bucket.size (snd kb)) (apply_row lim fd row))
     = sum_Z (map (fun kb => Bucket.size (snd kb)) fd) + length_of lim row.
Proof.
  unfold apply_row, rejected_row, length_of.
  destruct (extract lim row) as [|k n subs]; [lia|].
  rewrite store_on_bucket, !on_bucket_total by done.
  rewrite stored_files, stored_size. lia.
Qed.

Lemma rejected_length_of row :
  rejected_row lim row = true -> length_of lim row = 0.
Proof. unfold rejected_row, length_of. by destruct (extract lim row). Qed.

Lemma fold_apply_row_totals rows fd :
  sum_Z (map (fun kb => Bucket.files (snd kb))
           (fold_left (apply_row lim) rows fd))
  = sum_Z (map (fun kb => Bucket.files (snd kb)) fd)
    + Z.of_nat (length (List.filter (fun r => negb (rejected_row lim r)) rows))
  /\ sum_Z (map (fun kb => Bucket.size (snd kb))
              (fold_left (apply_row lim) rows fd))
     = sum_Z (map (fun kb => Bucket.size (snd kb)) fd)
       + sum_Z (map (length_of lim)
                  (List.filter (fun r => negb (rejected_row lim r)) rows)).
Proof.
  revert fd. induction rows as [|row rows IH]; intros fd.
  - simpl. lia.
  - cbn [fold_left List.filter].
    destruct (IH (apply_row lim fd row)) as [-> ->].
    destruct (apply_row_totals fd row) as [-> ->].
    pose proof (rejected_length_of row) as Hzero.
    destruct (rejected_row lim row); cbn [negb map length]; unfold sum_Z.
    + rewrite Hzero by done. lia.
    + cbn [fold_right]. lia.
Qed.

(** X4: rows in another order give the same buckets, hence the same
    report rows in another order, or no report either. *)
Theorem reordering_rows_reorders_report cs (header : Row)
    (rows rows' : list Row) :
  Permutation rows rows' ->
  let run := process_csv_with lim cs (header :: rows) in
  let run' := process_csv_with lim cs (header :: rows') in
  (forall key,
      bucket_of key (folder_data (snd run))
      = bucket_of key (folder_data (snd run')))
  /\ option_Forall2 Permutation (fst run) (fst run').
Proof.
  intros Hperm run run'.
  assert (forall key,
             bucket_of key (folder_data (snd run))
             = bucket_of key (folder_data (snd run'))) as Hsame.
  { intros key. subst run run'.
    rewrite !process_csv_with_folder_data, !aggregate_folder_data.
    cbn [tail].
    rewrite !bucket_of_fold. apply fold_left_permutation.
    - intros ob r1 r2. apply bucket_step_comm.
    - by apply passing_permutation. }
  split; [done|].
  subst run run'. rewrite !process_csv_with_fst.
  rewrite !process_csv_with_folder_data in Hsame.
  apply output_rows_permutation, assoc_permutation; [| |done].
  - rewrite aggregate_folder_data. apply fold_apply_row_NoDup. constructor.
  - rewrite aggregate_folder_data. apply fold_apply_row_NoDup. constructor.
Qed.

(** X5: no two rows of a report carry the same drive and top-level
    folder, and a pair is in the report exactly when some row that passes
    line 45 is attributed to it. *)
Theorem report_has_one_row_per_key cs input report :
  fst (process_csv_with lim cs input) = Some report ->
  let keys := map (fun r => (Drive r, Top_Level_Folder r)) report in
  List.NoDup keys
  /\ forall key,
       In key keys
       <-> Exists (fun r => attributed_to lim key r = true)
             (passing (tail input)).
Proof.
  rewrite process_csv_with_fst. intros Hreport keys. subst keys.
  rewrite (output_rows_keys _ _ _ Hreport), aggregate_folder_data.
  fold (passing (tail input)).
  split.
  - apply fold_apply_row_NoDup. constructor.
  - intros key. rewrite <- bucket_of_is_Some, bucket_of_fold.
    change (bucket_of key []) with (@None Bucket.t).
    destruct (fold_bucket_step_totals lim key (passing (tail input)) None)
      as (_ & _ & _ & ->).
    split; [|tauto]. intros [[? ?]|?]; done.
Qed.

(** X6: the buckets of the final mapping, and with them the rows of a
    report, come in the order in which their keys first occur among the
    attributed rows. *)
Theorem report_rows_in_first_seen_order cs input report :
  fst (process_csv_with lim cs input) = Some report ->
  map fst (folder_data (snd (process_csv_with lim cs input)))
  = first_seen (omap (key_of lim) (passing (tail input)))
  /\ map (fun r => (Drive r, Top_Level_Folder r)) report
     = first_seen (omap (key_of lim) (passing (tail input))).
Proof.
  rewrite process_csv_with_fst, process_csv_with_folder_data.
  intros Hreport.
  rewrite (output_rows_keys _ _ _ Hreport), aggregate_folder_data.
  fold (passing (tail input)).
  split; apply fold_apply_row_key_list.
Qed.

(** X7: nothing is counted twice and nothing is lost between buckets: the
    file counts of a report add up to the number of valid rows, and the
    sizes of the buckets to the sum of their sizes. *)
Theorem report_counts_every_valid_row_once cs input report :
  let run := process_csv_with lim cs input in
  let valid := List.filter (valid_row lim) (tail input) in
  fst run = Some report ->
  sum_Z (map Number_of_Files report) = Z.of_nat (length valid)
  /\ sum_Z (map (fun kb => Bucket.size (snd kb)) (folder_data (snd run)))
     = sum_Z (map (length_of lim) valid).
Proof.
  intros run valid. subst run valid.
  rewrite process_csv_with_fst, process_csv_with_folder_data.
  intros Hreport.
  rewrite (output_rows_files _ _ _ Hreport), aggregate_folder_data.
  fold (passing (tail input)).
  rewrite filter_valid_row.
  destruct (fold_apply_row_totals (passing (tail input)) []) as [-> ->].
  simpl. lia.
Qed.

End Report_rows.

(** ** The error log, entry by entry *)

Lemma too_few_columns_nonempty row : too_few_columns row = false -> row <> [].
Proof. by destruct row. Qed.

Section Log_entries.

Variable lim : nat.

Lemma extract_never_IndexError row :
  extract lim row <> Rejected (Raised IndexError).
Proof.
  unfold extract. destruct (find_full_name row); [|done].
  destruct (negb _); [done|]. destruct (_ <? 3)%nat; [done|].
  by destruct (extract_length lim row).
Qed.

Lemma process_row_state sn st n row :
  row <> [] ->
  snd (process_row lim (sn, st) (n, row))
  = {| folder_data := apply_row lim (folder_data st) row;
       error_log := error_log st ++ chunk_entries lim [(n, row)] |}.
Proof.
  intros Hrow. unfold process_row, learn_server_name, apply_row, chunk_entries.
  destruct row as [|first row]; [done|]. cbn [flat_map fst snd].
  destruct st as [fd log].
  destruct (_ || _); destruct (extract lim _); simpl;
    by rewrite ?app_nil_r.
Qed.

(** A call of [process_chunk] on rows that are not empty, as one step. *)
Lemma process_chunk_state chunk st sn :
  Forall (fun item => snd item <> []) chunk ->
  process_chunk lim chunk st sn
  = {| folder_data := fold_left (apply_row lim) (map snd chunk) (folder_data st);
       error_log := error_log st ++ chunk_entries lim chunk |}.
Proof.
  unfold process_chunk, process_chunk_loop. intros Hchunk. revert st sn.
  induction Hchunk as [|[n row] chunk Hrow _ IH]; intros st sn.
  - destruct st. simpl. by rewrite app_nil_r.
  - cbn [fold_left map snd].
    destruct (process_row lim (sn, st) (n, row)) as [sn' st'] eqn:Hstep.
    rewrite IH.
    pose proof (process_row_state sn st n row Hrow) as Hst.
    rewrite Hstep in Hst. cbn [snd] in Hst. subst st'. cbn [folder_data error_log].
    f_equal. unfold chunk_entries. cbn [flat_map].
    by rewrite app_nil_r, <- app_assoc.
Qed.

Lemma process_row_log_grows sn st n row :
  exists new,
    error_log (snd (process_row lim (sn, st) (n, row))) = error_log st ++ new
    /\ (length new <= 1)%nat.
Proof.
  unfold process_row, learn_server_name, write_log.
  destruct row as [|first row].
  - destruct (_ || _); simpl; (eexists; split; [reflexivity | simpl; lia]).
  - destruct (_ || _); destruct (extract lim _); simpl;
      first [ eexists; split; [reflexivity | simpl; lia]
            | exists []; split; [by rewrite app_nil_r | simpl; lia] ].
Qed.

Lemma process_chunk_log_grows chunk st sn :
  exists new,
    error_log (process_chunk lim chunk st sn) = error_log st ++ new
    /\ (length new <= length chunk)%nat.
Proof.
  unfold process_chunk, process_chunk_loop. revert st sn.
  induction chunk as [|[n row] chunk IH]; intros st sn.
  - exists []. by rewrite app_nil_r.
  - cbn [fold_left].
    destruct (process_row lim (sn, st) (n, row)) as [sn' st'] eqn:Hstep.
    destruct (process_row_log_grows sn st n row) as (new1 & Hnew1 & Hlen1).
    rewrite Hstep in Hnew1. cbn [snd] in Hnew1.
    destruct (IH st' sn') as (new2 & -> & Hlen2).
    exists (new1 ++ new2). rewrite Hnew1, <- app_assoc. split; [done|].
    rewrite length_app. simpl. lia.
Qed.

Lemma read_rows_log_grows cs sn rows n chunk st :
  exists new,
    error_log (read_rows lim cs sn rows n chunk st) = error_log st ++ new.
Proof.
  revert n chunk st. induction rows as [|row rows IH]; intros n chunk st.
  - rewrite read_rows_nil. destruct chunk as [|item chunk].
    + exists []. by rewrite app_nil_r.
    + destruct (process_chunk_log_grows (item :: chunk) st sn) as (new & ? & _).
      eauto.
  - rewrite read_rows_cons. destruct (too_few_columns row).
    + edestruct IH as (new & ->). simpl. unfold write_log.
      rewrite <- app_assoc. eauto.
    + destruct (cs <=? _).
      * edestruct IH as (new & ->).
        destruct (process_chunk_log_grows (chunk ++ [(S n, row)]) st sn)
          as (new' & -> & _).
        rewrite <- app_assoc. eauto.
      * apply IH.
Qed.

Lemma chunk_entries_app chunk chunk' :
  chunk_entries lim (chunk ++ chunk')
  = chunk_entries lim chunk ++ chunk_entries lim chunk'.
Proof. unfold chunk_entries. apply flat_map_app. Qed.

Lemma chunk_entries_passing n row :
  too_few_columns row = false ->
  chunk_entries lim [(n, row)] = row_entry lim n row.
Proof.
  intros Hrow. unfold chunk_entries, row_entry. rewrite Hrow.
  cbn [flat_map fst snd]. by rewrite app_nil_r.
Qed.

(** The log of a run holds the entries of the rows still waiting in
    [chunk] and those of [rows]; entries of line 46 overtake those of rows
    waiting in a chunk. *)
Lemma read_rows_log_entries cs sn rows n chunk st :
  Forall (fun item => too_few_columns (snd item) = false) chunk ->
  Permutation
    (error_log (read_rows lim cs sn rows n chunk st))
    (error_log st ++ chunk_entries lim chunk ++ expected_entries lim n rows).
Proof.
  revert n chunk st.
  induction rows as [|row rows IH]; intros n chunk st Hchunk.
  - rewrite read_rows_nil. cbn [expected_entries]. rewrite app_nil_r.
    destruct chunk as [|item chunk].
    + unfold chunk_entries. simpl. by rewrite app_nil_r.
    + rewrite process_chunk_state; [done|].
      eapply Forall_impl; [exact Hchunk|].
      intros item'. apply too_few_columns_nonempty.
  - rewrite read_rows_cons. cbn [expected_entries].
    destruct (too_few_columns row) eqn:Hfew.
    + rewrite IH by done. cbn [error_log]. unfold write_log, row_entry.
      rewrite Hfew. rewrite <- !app_assoc. apply Permutation_app_head.
      cbn [app].
      apply (Permutation_middle (chunk_entries lim chunk)).
    + assert (Forall (fun item => too_few_columns (snd item) = false)
                (chunk ++ [(S n, row)])) as Hchunk'.
      { apply Forall_app. split; [done|]. by repeat constructor. }
      rewrite <- (chunk_entries_passing (S n) row Hfew).
      destruct (cs <=? _).
      * rewrite IH by constructor. rewrite process_chunk_state.
        -- cbn [error_log]. unfold chunk_entries at 2. cbn [flat_map app].
           by rewrite chunk_entries_app, <- !app_assoc.
        -- eapply Forall_impl; [exact Hchunk'|].
           intros item'. apply too_few_columns_nonempty.
      * rewrite IH by done. by rewrite chunk_entries_app, <- !app_assoc.
Qed.

(** The only exception a row can raise past line 45 is the [ValueError]
    of [int]. *)
Lemma extract_raises_ValueError row x :
  extract lim row = Rejected (Raised x) -> x = ValueError.
Proof.
  unfold extract. destruct (find_full_name row); [|done].
  destruct (negb _); [done|]. destruct (_ <? 3)%nat; [done|].
  destruct (extract_length lim row); [done|]. by intros [= <-].
Qed.

Lemma expected_entries_reasons n rows :
  Forall (fun e => exception_of e = None \/ exception_of e = Some ValueError)
    (expected_entries lim n rows).
Proof.
  revert n. induction rows as [|row rows IH]; intros n; [constructor|].
  cbn [expected_entries]. apply Forall_app. split; [|apply IH].
  unfold row_entry.
  destruct (too_few_columns row); [constructor; [by left|constructor]|].
  destruct (extract lim row) as [reason|] eqn:Hx; [|constructor].
  constructor; [|constructor]. destruct reason as [| | |x]; try by left.
  right. by rewrite (extract_raises_ValueError row x Hx).
Qed.

(** Every expected entry carries the line number of a row. *)
Lemma expected_entries_lines n rows :
  Forall (fun e => exists k, line_of e = Some k
                             /\ (n < k <= n + length rows)%nat)
    (expected_entries lim n rows).
Proof.
  revert n. induction rows as [|row rows IH]; intros n; [constructor|].
  cbn [expected_entries]. apply Forall_app. split.
  - unfold row_entry.
    destruct (too_few_columns row);
      [repeat constructor; exists (S n); simpl; split; [done|lia]|].
    destruct (extract lim row); repeat constructor.
    exists (S n). simpl. split; [done|lia].
  - eapply Forall_impl; [apply IH|]. intros e (k & Hk & Hrange).
    exists k. split; [done|]. simpl. lia.
Qed.

Lemma expected_entries_omap n rows :
  map Some (omap line_of (expected_entries lim n rows))
  = map line_of (expected_entries lim n rows).
Proof.
  pose proof (expected_entries_lines n rows) as Hlines.
  induction Hlines as [|e l (k & Hk & _) _ IH]; [done|].
  cbn [omap list_omap map]. rewrite Hk. cbn [map]. by rewrite IH.
Qed.

Lemma row_entry_length n row : (length (row_entry lim n row) <= 1)%nat.
Proof.
  unfold row_entry. destruct (too_few_columns row); [simpl; lia|].
  destruct (extract lim row); simpl; lia.
Qed.

Lemma expected_entries_NoDup n rows :
  List.NoDup (map line_of (expected_entries lim n rows)).
Proof.
  revert n. induction rows as [|row rows IH]; intros n; [constructor|].
  cbn [expected_entries]. rewrite map_app.
  pose proof (expected_entries_lines (S n) rows) as Hlines.
  assert (row_entry lim (S n) row = []
          \/ exists r, row_entry lim (S n) row = [Skipped (S n) r]) as [->| [r ->]].
  { unfold row_entry. destruct (too_few_columns row); [eauto|].
    destruct (extract lim row); eauto. }
  - apply IH.
  - cbn [map app line_of]. constructor; [|apply IH].
    intros (e & He & Hin)%in_map_iff.
    rewrite Forall_forall in Hlines.
    apply list_elem_of_In, Hlines in Hin as (k & Hk & Hrange).
    rewrite Hk in He. injection He as ->. lia.
Qed.

End Log_entries.

Lemma int_without_limit s : Py.int 0 s = Some (Py.int_acc 0 s).
Proof. unfold Py.int. by rewrite andb_false_r. Qed.

Lemma extract_length_without_limit row : extract_length 0 row <> None.
Proof.
  induction row as [|part row IH]; simpl; [done|].
  destruct (Py.fullmatch_digits _); [by rewrite int_without_limit | done].
Qed.

Lemma extract_without_limit row e : extract 0 row <> Rejected (Raised e).
Proof.
  unfold extract. destruct (find_full_name row); [|done].
  destruct (negb _); [done|]. destruct (_ <? 3)%nat; [done|].
  pose proof (extract_length_without_limit row).
  by destruct (extract_length 0 row).
Qed.

Lemma expected_entries_without_limit n rows :
  Forall (fun e => exception_of e = None) (expected_entries 0 n rows).
Proof.
  revert n. induction rows as [|row rows IH]; intros n; [constructor|].
  cbn [expected_entries]. apply Forall_app. split; [|apply IH].
  unfold row_entry. destruct (too_few_columns row); [by repeat constructor|].
  destruct (extract 0 row) as [reason|] eqn:Hx; [|constructor].
  repeat constructor. destruct reason as [| | |x]; try done.
  by destruct (extract_without_limit row x).
Qed.

Section Log_theorems.

Variable lim : nat.

(** X8: the error log is only ever appended to.  A call of
    [process_chunk] keeps the entries it finds and adds at most one for
    each row of the chunk; the reading loop keeps the entries it finds. *)
Theorem error_log_is_append_only :
  (forall chunk st sn,
      error_log st `prefix_of` error_log (process_chunk lim chunk st sn)
      /\ (length (error_log (process_chunk lim chunk st sn))
          <= length (error_log st) + length chunk)%nat)
  /\ (forall cs sn rows n chunk st,
      error_log st `prefix_of` error_log (read_rows lim cs sn rows n chunk st)).
Proof.
  split.
  - intros chunk st sn.
    destruct (process_chunk_log_grows lim chunk st sn) as (new & -> & Hlen).
    split; [by exists new|]. rewrite length_app. lia.
  - intros cs sn rows n chunk st.
    destruct (read_rows_log_grows lim cs sn rows n chunk st) as (new & ->).
    by exists new.
Qed.

(** X9: the error log of a run is the log of the reading loop, followed
    by the two lines of lines 83-84 when no report is written.  Up to the
    order of its entries the log of the loop is one entry for each row that
    is not valid, with the line number of the row and the reason it is
    turned down for; the batch size changes the order of the entries and
    nothing else. *)
Theorem error_log_has_one_entry_per_rejected_row cs input :
  let run := process_csv_with lim cs input in
  error_log (snd run)
  = error_log (aggregate lim cs input) ++ fatal_lines (fst run)
  /\ Permutation (error_log (aggregate lim cs input))
       (expected_entries lim 1 (tail input))
  /\ Permutation (error_log (snd run))
       (expected_entries lim 1 (tail input) ++ fatal_lines (fst run))
  /\ forall cs',
       fst (process_csv_with lim cs' input) = fst run
       /\ Permutation (error_log (snd run))
            (error_log (snd (process_csv_with lim cs' input))).
Proof.
  intros run.
  assert (forall n,
             Permutation (error_log (aggregate lim n input))
               (expected_entries lim 1 (tail input))) as Hloop.
  { intros n. unfold aggregate.
    by rewrite read_rows_log_entries by constructor. }
  assert (forall n, fst (process_csv_with lim n input) = fst run) as Hfst.
  { intros n. subst run.
    by rewrite !process_csv_with_fst, !aggregate_folder_data. }
  subst run. split; [apply process_csv_with_log|]. split; [apply Hloop|].
  split.
  - rewrite process_csv_with_log. by apply Permutation_app_tail.
  - intros cs'. split; [apply Hfst|].
    rewrite !process_csv_with_log, (Hfst cs').
    apply Permutation_app_tail. by rewrite !Hloop.
Qed.

(** X10: every line number in the error log of a run is that of a data
    row, from 2 to the number of rows read, and no two entries carry the
    same line number; the entries without a line number are the lines of
    lines 83-84. *)
Theorem error_log_lines_are_rows cs input :
  let run := process_csv_with lim cs input in
  let lines := omap line_of (error_log (snd run)) in
  Forall (fun k => (2 <= k <= length input)%nat) lines
  /\ List.NoDup lines
  /\ (length lines + length (fatal_lines (fst run))
      = length (error_log (snd run)))%nat.
Proof.
  intros run lines.
  assert (Permutation (error_log (aggregate lim cs input))
            (expected_entries lim 1 (tail input))) as Hperm.
  { unfold aggregate. by rewrite read_rows_log_entries by constructor. }
  assert (lines = omap line_of (error_log (aggregate lim cs input)))
    as Hlines.
  { subst lines run. rewrite process_csv_with_log, omap_app.
    destruct (fst _); cbn [fatal_lines omap list_omap line_of];
      by rewrite app_nil_r. }
  assert (Permutation lines
            (omap line_of (expected_entries lim 1 (tail input)))) as Hperm'.
  { rewrite Hlines. by apply omap_Permutation. }
  pose proof (expected_entries_lines lim 1 (tail input)) as Hrange.
  split; [|split].
  - rewrite Hperm'. clear -Hrange.
    induction Hrange as [|e l (k & Hk & Hr) _ IH]; [constructor|].
    cbn [omap list_omap]. rewrite Hk. constructor; [|exact IH].
    destruct input; simpl in *; lia.
  - eapply Permutation_NoDup; [symmetry; exact Hperm'|].
    apply NoDup_ListNoDup, (NoDup_fmap_1 Some), NoDup_ListNoDup.
    change (List.NoDup
              (map Some (omap line_of (expected_entries lim 1 (tail input))))).
    rewrite expected_entries_omap. apply expected_entries_NoDup.
  - subst run. rewrite process_csv_with_log, length_app, Hlines.
    f_equal. rewrite Hperm. clear -Hrange.
    induction Hrange as [|e l (k & Hk & Hr) _ IH]; [done|].
    cbn [omap list_omap length]. rewrite Hk. cbn [length]. by rewrite IH.
Qed.

(** X11: a call of [process_chunk] on a chunk is the call on its first
    part followed by the call on the rest, whatever server name the second
    call is given, as long as the rest holds no empty row. *)
Theorem process_chunk_in_two_calls (c1 c2 : list (nat * Row)) st sn sn' :
  Forall (fun item => snd item <> []) c2 ->
  process_chunk lim (c1 ++ c2) st sn
  = process_chunk lim c2 (process_chunk lim c1 st sn) sn'.
Proof.
  intros Hc2.
  pose proof (process_chunk_state lim c2) as Hstate.
  unfold process_chunk, process_chunk_loop in *.
  rewrite fold_left_app.
  destruct (fold_left (process_row lim) c1 (sn, st)) as [sn1 st1].
  cbn [snd]. by rewrite !Hstate.
Qed.

End Log_theorems.

(** X12: no entry of the error log of a run reports an [IndexError], since
    line 45 keeps empty rows away from [row[0]]; the only exception the
    reading loop reports is the [ValueError] of [int], and with the digit
    limit of the interpreter switched off it reports none, so that the
    only exception in the log of a run is the [OverflowError] of
    line 66. *)
Theorem error_log_never_reports_IndexError :
  (forall lim cs input,
      Forall (fun e => exception_of e <> Some IndexError)
        (error_log (snd (process_csv_with lim cs input))))
  /\ (forall lim cs input,
      Forall (fun e => exception_of e = None
                       \/ exception_of e = Some ValueError)
        (error_log (aggregate lim cs input)))
  /\ (forall cs input,
      Forall (fun e => exception_of e = None)
        (error_log (aggregate 0 cs input))
      /\ Forall (fun e => exception_of e = None
                          \/ e = ErrorProcessing OverflowError)
           (error_log (snd (process_csv_with 0 cs input)))).
Proof.
  assert (forall lim cs input,
             Forall (fun e => exception_of e = None
                              \/ exception_of e = Some ValueError)
               (error_log (aggregate lim cs input))) as Hloop.
  { intros lim cs input. unfold aggregate.
    rewrite read_rows_log_entries by constructor.
    apply expected_entries_reasons. }
  assert (forall cs input,
             Forall (fun e => exception_of e = None)
               (error_log (aggregate 0 cs input))) as Hoff.
  { intros cs input. unfold aggregate.
    rewrite read_rows_log_entries by constructor.
    apply expected_entries_without_limit. }
  split; [|split; [exact Hloop|]].
  - intros lim cs input. rewrite process_csv_with_log. apply Forall_app.
    split.
    + eapply Forall_impl; [apply Hloop|]. by intros e [-> | ->].
    + destruct (fst _); by repeat constructor.
  - intros cs input. split; [apply Hoff|].
    rewrite process_csv_with_log. apply Forall_app. split.
    + eapply Forall_impl; [apply Hoff|]. intros e. by left.
    + destruct (fst _); [constructor|].
      constructor; [by left|]. constructor; [by right|constructor].
Qed.

(** ** Paths, segment by segment *)

Lemma string_app_assoc (s t u : string) : (s +:+ t) +:+ u = s +:+ t +:+ u.
Proof.
  induction s as [|a s IH]; [done|]. rewrite !app_String. by rewrite IH.
Qed.

Lemma join_split sep s :
  Py.join (String sep EmptyString) (Py.split sep s) = s.
Proof.
  induction s as [|a s IH]; [done|]. simpl.
  destruct (Ascii.eqb_spec a sep) as [->|Hne].
  - destruct (Py.split sep s) as [|h t] eqn:Hs;
      [by destruct (split_nonempty sep s)|].
    rewrite join_cons, app_Empty, app_String, app_Empty. by rewrite IH.
  - destruct (Py.split sep s) as [|h t] eqn:Hs;
      [by destruct (split_nonempty sep s)|].
    destruct t as [|y t].
    + simpl in *. by rewrite IH.
    + rewrite join_cons, app_String, <- join_cons. by rewrite IH.
Qed.

Lemma split_segments sep s :
  Forall (fun seg => Py.contains sep seg = false) (Py.split sep s).
Proof.
  induction s as [|a s IH]; simpl; [by repeat constructor|].
  destruct (Ascii.eqb a sep) eqn:Ha; [by constructor|].
  destruct (Py.split sep s) as [|h t]; simpl.
  - repeat constructor. simpl. by rewrite Ha.
  - apply Forall_cons in IH as [Hh Ht]. constructor; [|done].
    simpl. by rewrite Ha.
Qed.

Lemma join_snoc sep l x :
  l <> [] -> Py.join sep (l ++ [x]) = Py.join sep l +:+ sep +:+ x.
Proof.
  intros Hl. induction l as [|y l IH]; [done|].
  destruct l as [|z l]; [done|].
  change ((y :: z :: l) ++ [x]) with (y :: ((z :: l) ++ [x])).
  change (Py.join sep (y :: (z :: l) ++ [x]))
    with (y +:+ sep +:+ Py.join sep ((z :: l) ++ [x])).
  rewrite IH by done. rewrite join_cons.
  by rewrite !string_app_assoc.
Qed.

Lemma join_removelast_last sep (l : list string) :
  (2 <= length l)%nat ->
  Py.join sep (removelast l) +:+ sep +:+ List.last l EmptyString
  = Py.join sep l.
Proof.
  intros Hlen.
  assert (l <> []) as Hne by (destruct l; [simpl in Hlen; lia | done]).
  rewrite (app_removelast_last EmptyString Hne) at 3.
  rewrite join_snoc; [done|].
  destruct l as [|x [|y l]]; simpl in *; done || lia.
Qed.

(** X13: splitting on backslash and joining again gives the string back,
    and no part holds a backslash; so what line 108 joins, a backslash and
    the last part make up the FullName: line 108 removes the leaf and the
    backslash before it, nothing else. *)
Theorem directory_and_leaf_make_the_path s :
  let path_parts := Py.split backslash s in
  Forall (fun seg => Py.contains backslash seg = false) path_parts
  /\ Py.join "\" path_parts = s
  /\ ((2 <= length path_parts)%nat ->
      Py.join "\" (removelast path_parts)
        +:+ "\" +:+ List.last path_parts EmptyString = s).
Proof.
  intros path_parts. split; [apply split_segments|].
  split; [apply (join_split backslash)|].
  intros Hlen. rewrite join_removelast_last by done.
  apply (join_split backslash).
Qed.

Lemma generated_subfolders_short parts :
  (length parts <= 3)%nat -> generated_subfolders parts = [].
Proof.
  intros Hlen. unfold generated_subfolders.
  by replace (length parts - 3)%nat with 0%nat by lia.
Qed.

Lemma generated_subfolders_snoc parts x :
  (3 <= length parts)%nat ->
  generated_subfolders (parts ++ [x])
  = generated_subfolders parts ++ [Py.join "\" (drop 3 parts ++ [x])].
Proof.
  intros Hlen. unfold generated_subfolders. rewrite length_app. simpl.
  replace (length parts + 1 - 3)%nat with (S (length parts - 3)) by lia.
  rewrite seq_S, map_app. f_equal.
  - apply map_ext_in. intros i [_ Hi]%in_seq. f_equal. unfold Py.slice.
    rewrite drop_app_le by lia. rewrite take_app_le; [done|].
    rewrite length_drop. lia.
  - simpl. do 2 f_equal. unfold Py.slice.
    rewrite drop_app_le by lia. apply take_ge.
    rewrite length_app, length_drop. simpl. lia.
Qed.

(** X14: the entries of line 131 are cumulative: one more directory
    segment adds one entry, the previous deepest path extended by the
    segment, and keeps the others; so a path generates every entry that a
    path it extends generates. *)
Theorem deeper_path_keeps_shallower_entries (parts more : list string) :
  generated_subfolders parts `prefix_of` generated_subfolders (parts ++ more)
  /\ (forall x,
         (3 <= length parts)%nat ->
         generated_subfolders (parts ++ [x])
         = generated_subfolders parts
             ++ [Py.join "\" (drop 3 parts ++ [x])]).
Proof.
  split; [|apply generated_subfolders_snoc].
  induction more as [|x more IH] using rev_ind.
  - by rewrite app_nil_r.
  - rewrite app_assoc.
    destruct (le_lt_dec 3 (length (parts ++ more))) as [Hlen|Hlen].
    + rewrite generated_subfolders_snoc by done.
      by apply prefix_app_r.
    + rewrite (generated_subfolders_short parts).
      * apply prefix_nil.
      * rewrite length_app in Hlen. lia.
Qed.

Section Path_keys.

Variable lim : nat.

(** X15: the key of a row whose path field is [\\d0\d1\...\leaf].  With
    one directory segment the key is the segment itself and the sentinel;
    with two, the drive [\\d0\d1] and the sentinel; with three or more,
    the drive and the third segment.  The leaf plays no part, and the
    subfolders of the key are touched only from four segments on. *)
Theorem unc_path_key (pre post : Row) (dirs : list string) leaf S :
  Forall (fun seg => Py.contains backslash seg = false) (dirs ++ [leaf]) ->
  hd EmptyString dirs <> EmptyString ->
  List.last dirs EmptyString <> EmptyString ->
  is_path_field (unc_path dirs leaf) = true ->
  Forall (fun f => is_path_field f = false) pre ->
  let row := pre ++ unc_path dirs leaf :: post in
  extract_length lim row = Some S ->
  exists subs,
    extract lim row
    = Attributed
        match dirs with
        | [] => (EmptyString, "Not Applicable")
        | [d0] => (d0, "Not Applicable")
        | [d0; d1] => ("\\" +:+ d0 +:+ "\" +:+ d1, "Not Applicable")
        | d0 :: d1 :: d2 :: _ => ("\\" +:+ d0 +:+ "\" +:+ d1, d2)
        end S subs
    /\ (subs = None <-> (length dirs <= 3)%nat).
Proof.
  intros Hsegs Hhd Hlast Hpath Hpre row HS.
  assert (find_full_name row = Some (Py.strip (unc_path dirs leaf))) as Hfn
    by by apply find_full_name_first.
  rewrite (extract_unc_path lim row dirs leaf S) by done.
  destruct (3 <? length dirs)%nat eqn:Hlen.
  - apply Nat.ltb_lt in Hlen. eexists. split.
    + f_equal. by destruct dirs as [|d0 [|d1 [|d2 dirs]]].
    + split; [done | lia].
  - apply Nat.ltb_ge in Hlen. exists None. split; [|done].
    f_equal. by destruct dirs as [|d0 [|d1 [|d2 dirs]]].
Qed.

End Path_keys.

(** ** Quotes and blanks around a field *)

Lemma digits_contain_only_digits c d :
  Py.all_digits d = true -> Py.isdigit c = false -> Py.contains c d = false.
Proof.
  intros Hd Hc. induction d as [|a d IH]; [done|]. simpl in *.
  apply andb_true_iff in Hd as [Ha Hd].
  destruct (Ascii.eqb_spec a c) as [->|]; [congruence | auto].
Qed.

Lemma contains_replicate c a n :
  a <> c -> Py.contains c (replicate_char n a) = false.
Proof.
  intros Hne. induction n as [|n IH]; [done|]. simpl.
  by destruct (Ascii.eqb_spec a c).
Qed.

Lemma lstrip_replicate c n s :
  Py.lstrip (Ascii.eqb c) (replicate_char n c +:+ s)
  = Py.lstrip (Ascii.eqb c) s.
Proof.
  induction n as [|n IH]; [done|].
  cbn [replicate_char]. rewrite app_String. simpl.
  by rewrite Ascii.eqb_refl.
Qed.

Lemma rstrip_all p r :
  (forall c, Py.contains c r = true -> p c = true) ->
  Py.rstrip p r = EmptyString.
Proof.
  induction r as [|a r IH]; intros Hall; [done|]. simpl.
  rewrite IH.
  - rewrite (Hall a); [done|]. simpl. by rewrite Ascii.eqb_refl.
  - intros c Hc. apply Hall. simpl. rewrite Hc. by destruct (Ascii.eqb a c).
Qed.

Lemma rstrip_app_all p s r :
  (forall c, Py.contains c r = true -> p c = true) ->
  Py.rstrip p (s +:+ r) = Py.rstrip p s.
Proof.
  intros Hall. induction s as [|a s IH].
  - rewrite app_Empty. by apply rstrip_all.
  - rewrite app_String. simpl. by rewrite IH.
Qed.

Lemma lstrip_all p l :
  (forall c, Py.contains c l = true -> p c = true) ->
  Py.lstrip p l = EmptyString.
Proof.
  induction l as [|a l IH]; intros Hall; [done|]. simpl.
  rewrite (Hall a); [|simpl; by rewrite Ascii.eqb_refl].
  apply IH. intros c Hc. apply Hall. simpl. rewrite Hc.
  by destruct (Ascii.eqb a c).
Qed.

Lemma lstrip_app_all p l s :
  (forall c, Py.contains c l = true -> p c = true) ->
  Py.lstrip p (l +:+ s) = Py.lstrip p s.
Proof.
  induction l as [|a l IH]; intros Hall; [done|].
  rewrite app_String. simpl.
  rewrite (Hall a); [|simpl; by rewrite Ascii.eqb_refl].
  apply IH. intros c Hc. apply Hall. simpl. rewrite Hc.
  by destruct (Ascii.eqb a c).
Qed.

Lemma contains_replicate_same c a n :
  Py.contains c (replicate_char n a) = true -> Ascii.eqb a c = true.
Proof.
  induction n as [|n IH]; [done|]. simpl.
  by destruct (Ascii.eqb a c).
Qed.

Lemma rstrip_replicate c s n :
  Py.rstrip (Ascii.eqb c) (s +:+ replicate_char n c)
  = Py.rstrip (Ascii.eqb c) s.
Proof. apply rstrip_app_all. intros a. apply contains_replicate_same. Qed.

Lemma strip_char_clean c s :
  Py.contains c s = false -> Py.strip_char c s = s.
Proof.
  intros Hs. unfold Py.strip_char.
  rewrite lstrip_of_headed; [by apply rstrip_clean|].
  destruct s as [|a s]; [done|]. simpl in *.
  rewrite Ascii.eqb_sym. by destruct (Ascii.eqb a c).
Qed.

(** Quotes of one kind around a text without them go away. *)
Lemma strip_char_wrapped c n m s :
  Py.contains c s = false ->
  Py.strip_char c (replicate_char n c +:+ s +:+ replicate_char m c) = s.
Proof.
  intros Hs. unfold Py.strip_char. rewrite lstrip_replicate.
  destruct s as [|a s].
  - rewrite app_Empty, lstrip_all; [done|].
    intros b. apply contains_replicate_same.
  - assert (Ascii.eqb c a = false) as Ha.
    { simpl in Hs. rewrite Ascii.eqb_sym. by destruct (Ascii.eqb a c). }
    rewrite app_String. cbn [Py.lstrip]. rewrite Ha.
    rewrite <- app_String, rstrip_replicate. by apply rstrip_clean.
Qed.

Lemma rstrip_head p a s :
  Py.rstrip p (String a s) = EmptyString
  \/ exists r, Py.rstrip p (String a s) = String a r.
Proof.
  simpl. destruct (Py.rstrip p s); [destruct (p a)|]; eauto.
Qed.

Section Quotes.

Variable lim : nat.

(** X16: digits count as the size of a row when they stand bare, in
    single quotes, in double quotes, or in single quotes inside double
    quotes, however many and whether balanced or not; with the double
    quotes inside the single quotes the field is passed over. *)
Theorem quoted_digits_are_a_size (a b c e : nat) (d : string) (rest : Row) :
  Py.fullmatch_digits d = true ->
  let field :=
    replicate_char a dquote +:+ (replicate_char b squote +:+ d
      +:+ replicate_char c squote) +:+ replicate_char e dquote in
  is_size_field field = true
  /\ extract_length lim (field :: rest) = Py.int lim d
  /\ forall inner,
       is_size_field (String squote (String dquote inner)) = false.
Proof.
  intros Hd field.
  assert (Py.all_digits d = true) as Hall
    by (by apply andb_true_iff in Hd as [_ ?]).
  assert (Py.strip_char squote (Py.strip_char dquote field) = d) as Hstrip.
  { subst field. rewrite strip_char_wrapped.
    - apply strip_char_wrapped.
      by apply digits_contain_only_digits.
    - rewrite !contains_app, contains_replicate by done.
      rewrite (digits_contain_only_digits dquote d) by done.
      by rewrite contains_replicate. }
  split; [|split].
  - unfold is_size_field. by rewrite Hstrip.
  - cbn [extract_length]. by rewrite Hstrip, Hd.
  - intros inner. unfold is_size_field, Py.strip_char.
    change (Py.lstrip (Ascii.eqb dquote) (String squote (String dquote inner)))
      with (String squote (String dquote inner)).
    rewrite rstrip_String by reflexivity.
    destruct (rstrip_head (Ascii.eqb dquote) dquote inner) as [->|[r ->]].
    + reflexivity.
    + change (Py.lstrip (Ascii.eqb squote) (String squote (String dquote r)))
        with (String dquote r).
      by rewrite rstrip_String by reflexivity.
Qed.

End Quotes.

(** X17: a bucket that holds more bytes never shows fewer GB: the
    conversion of line 66, division in binary64 and rounding to two
    places, keeps the order, and a size that cannot be converted is above
    every size that can. *)
Theorem data_gb_is_monotone (size size' : Z) gb' :
  0 <= size <= size' ->
  data_gb size' = Some gb' ->
  exists gb, data_gb size = Some gb /\ gb <= gb'.
Proof.
  intros Hle Hgb'.
  destruct (data_gb size) as [gb|] eqn:Hgb.
  - exists gb. split; [done|]. by apply (data_gb_monotone size size').
  - apply data_gb_None in Hgb; [|lia].
    assert (data_gb size' = None) as Hnone by (apply data_gb_None; lia).
    congruence.
Qed.

Lemma all_chars_contains p s c :
  all_chars p s = true -> Py.contains c s = true -> p c = true.
Proof.
  induction s as [|a s IH]; [done|]. simpl.
  intros [Ha Hs]%andb_true_iff.
  destruct (Ascii.eqb_spec a c) as [<-|]; [done | auto].
Qed.

Lemma lstrip_app_cases p s r :
  Py.lstrip p (s +:+ r)
  = match Py.lstrip p s with
    | EmptyString => Py.lstrip p r
    | t => t +:+ r
    end.
Proof.
  induction s as [|a s IH]; [done|].
  rewrite app_String. simpl. by destruct (p a).
Qed.

(** Blanks on either side do not survive [strip]. *)
Lemma strip_padded l s r :
  all_chars Py.isspace l = true -> all_chars Py.isspace r = true ->
  Py.strip (l +:+ s +:+ r) = Py.strip s.
Proof.
  intros Hl Hr. unfold Py.strip.
  rewrite lstrip_app_all by (intros c; by apply all_chars_contains).
  rewrite lstrip_app_cases.
  destruct (Py.lstrip Py.isspace s) as [|a t].
  - rewrite lstrip_all; [done|]. intros c. by apply all_chars_contains.
  - apply rstrip_app_all. intros c. by apply all_chars_contains.
Qed.

Lemma contains_padded c l s r :
  Py.isspace c = false ->
  all_chars Py.isspace l = true -> all_chars Py.isspace r = true ->
  Py.contains c (l +:+ s +:+ r) = Py.contains c s.
Proof.
  intros Hc Hl Hr. rewrite !contains_app.
  destruct (Py.contains c l) eqn:Hcl.
  { apply (all_chars_contains _ _ _ Hl) in Hcl. congruence. }
  destruct (Py.contains c r) eqn:Hcr.
  { apply (all_chars_contains _ _ _ Hr) in Hcr. congruence. }
  simpl. apply orb_false_r.
Qed.

Lemma contains_strip_quotes c part :
  Ascii.eqb dquote c = false -> Ascii.eqb squote c = false ->
  Py.contains c (Py.strip_char squote (Py.strip_char dquote part))
  = Py.contains c part.
Proof.
  intros Hd Hs. unfold Py.strip_char.
  rewrite (contains_rstrip (Ascii.eqb squote)) by done.
  rewrite (contains_lstrip (Ascii.eqb squote)) by done.
  rewrite (contains_rstrip (Ascii.eqb dquote)) by done.
  by rewrite (contains_lstrip (Ascii.eqb dquote)).
Qed.

(** A field with a character that is no digit and no quote is no size. *)
Lemma not_a_size_field c part :
  Py.isdigit c = false ->
  Ascii.eqb dquote c = false -> Ascii.eqb squote c = false ->
  Py.contains c part = true -> is_size_field part = false.
Proof.
  intros Hdigit Hd Hs Hc. unfold is_size_field, Py.fullmatch_digits.
  destruct (Py.all_digits _) eqn:Hall; [|apply andb_false_r].
  apply (digits_contain_only_digits c) in Hall; [|done].
  rewrite contains_strip_quotes in Hall by done. congruence.
Qed.

Lemma isspace_not_digit_nor_quote c :
  Py.isspace c = true ->
  Py.isdigit c = false
  /\ Ascii.eqb dquote c = false /\ Ascii.eqb squote c = false.
Proof.
  intros Hc. repeat split.
  - unfold Py.isspace, Py.isdigit in *.
    destruct (48 <=? nat_of_ascii c)%nat eqn:H1; [|done].
    destruct (nat_of_ascii c <=? 57)%nat eqn:H2; [|done].
    apply Nat.leb_le in H1, H2.
    repeat (apply orb_true_iff in Hc as [Hc|Hc]);
      repeat (apply andb_true_iff in Hc as [? Hc]);
      repeat match goal with
             | H : (_ <=? _)%nat = true |- _ => apply Nat.leb_le in H
             | H : (_ =? _)%nat = true |- _ => apply Nat.eqb_eq in H
             end; lia.
  - destruct (Ascii.eqb_spec dquote c) as [<-|]; [done | done].
  - destruct (Ascii.eqb_spec squote c) as [<-|]; [done | done].
Qed.

Section Blanks.

Variable lim : nat.

Lemma path_field_is_no_size part :
  is_path_field part = true -> is_size_field part = false.
Proof.
  unfold is_path_field. intros [Hb _]%andb_true_iff.
  by apply (not_a_size_field backslash).
Qed.

Lemma extract_length_replace (pre : Row) x y (post : Row) :
  is_size_field x = false -> is_size_field y = false ->
  extract_length lim (pre ++ x :: post) = extract_length lim (pre ++ y :: post).
Proof.
  unfold is_size_field. intros Hx Hy.
  induction pre as [|f pre IH]; simpl.
  - by rewrite Hx, Hy.
  - by rewrite IH.
Qed.

Lemma find_full_name_replace (pre : Row) x y (post : Row) :
  is_path_field x = is_path_field y -> Py.strip x = Py.strip y ->
  find_full_name (pre ++ x :: post) = find_full_name (pre ++ y :: post).
Proof.
  unfold is_path_field. intros Hp Hs.
  induction pre as [|f pre IH]; simpl.
  - by rewrite Hp, Hs.
  - by rewrite IH.
Qed.

(** X18: blanks around the path field change nothing: the row is read as
    the row with the bare path.  Around digits they do: a field with a
    blank in it is never taken for the size. *)
Theorem blanks_around_the_path_are_ignored (pre post : Row) l part r :
  all_chars Py.isspace l = true ->
  all_chars Py.isspace r = true ->
  is_path_field part = true ->
  extract lim (pre ++ (l +:+ part +:+ r) :: post)
  = extract lim (pre ++ part :: post)
  /\ forall field c,
       Py.isspace c = true -> Py.contains c field = true ->
       is_size_field field = false.
Proof.
  intros Hl Hr Hpart. split.
  - assert (is_path_field (l +:+ part +:+ r) = true) as Hpadded.
    { unfold is_path_field in *. by rewrite !contains_padded. }
    unfold extract.
    rewrite (find_full_name_replace pre (l +:+ part +:+ r) part post);
      [|congruence | by apply strip_padded].
    rewrite (extract_length_replace pre (l +:+ part +:+ r) part post);
      [done | |]; by apply path_field_is_no_size.
  - intros field c Hc Hin.
    destruct (isspace_not_digit_nor_quote c Hc) as (? & ? & ?).
    by apply (not_a_size_field c).
Qed.

End Blanks.

(** ** A run that fits into one batch *)

Section One_batch.

Variable lim : nat.

Lemma process_chunk_nil st sn : process_chunk lim [] st sn = st.
Proof. reflexivity. Qed.

Lemma numbered_passing n rows :
  Forall (fun item => too_few_columns (snd item) = false) (numbered n rows).
Proof.
  revert n. induction rows as [|row rows IH]; intros n; simpl; [constructor|].
  destruct (too_few_columns row) eqn:Hrow; [apply IH|].
  constructor; [done | apply IH].
Qed.

Lemma length_numbered n rows :
  length (numbered n rows) = length (passing rows).
Proof.
  unfold passing. revert n.
  induction rows as [|row rows IH]; intros n; simpl; [done|].
  destruct (too_few_columns row); simpl; by rewrite IH.
Qed.

(** While the batch size is not reached the loop of lines 43-53 only
    collects: line 57 then processes every row in one call. *)
Lemma read_rows_one_batch cs sn rows n chunk st :
  Z.of_nat (length chunk + length (passing rows)) < cs ->
  read_rows lim cs sn rows n chunk st
  = process_chunk lim (chunk ++ numbered n rows)
      {| folder_data := folder_data st;
         error_log := error_log st ++ too_few_entries n rows |} sn.
Proof.
  revert n chunk st.
  induction rows as [|row rows IH]; intros n chunk st Hlen.
  - rewrite read_rows_nil. cbn [numbered too_few_entries].
    rewrite !app_nil_r. destruct st as [fd log]. by destruct chunk.
  - rewrite read_rows_cons. cbn [numbered too_few_entries].
    unfold passing in Hlen. cbn [List.filter] in Hlen.
    destruct (too_few_columns row) eqn:Hfew; cbn [negb] in Hlen.
    + rewrite IH by done. cbn [folder_data error_log]. unfold write_log.
      by rewrite <- app_assoc.
    + cbn [length] in Hlen.
      destruct (Z.leb_spec cs (Z.of_nat (length (chunk ++ [(S n, row)]))))
        as [Hfull|_].
      { rewrite length_app in Hfull. simpl in Hfull. lia. }
      rewrite IH.
      * by rewrite <- app_assoc.
      * rewrite length_app. unfold passing. simpl. lia.
Qed.

(** X19: an input with fewer rows passing line 45 than the batch size is
    processed by the single call of line 57, and the error log of the run
    reads: the entries of line 46 in line order, then the entries of the
    loop body in line order, then the two lines of lines 83-84 when no
    report is written. *)
Theorem small_input_is_one_batch cs input :
  Z.of_nat (length (passing (tail input))) < cs ->
  let run := process_csv_with lim cs input in
  let st := aggregate lim cs input in
  st = process_chunk lim (numbered 1 (tail input))
         {| folder_data := [];
            error_log := too_few_entries 1 (tail input) |} "Unknown"
  /\ folder_data (snd run) = folder_data st
  /\ fst run = output_rows "Unknown" (folder_data st)
  /\ error_log (snd run)
     = too_few_entries 1 (tail input)
         ++ chunk_entries lim (numbered 1 (tail input))
         ++ fatal_lines (fst run).
Proof.
  intros Hlen run st.
  assert (st = process_chunk lim (numbered 1 (tail input))
                 {| folder_data := [];
                    error_log := too_few_entries 1 (tail input) |} "Unknown")
    as Hst.
  { subst st. unfold aggregate. by rewrite read_rows_one_batch. }
  split; [done|]. subst run.
  split; [apply process_csv_with_folder_data|].
  split; [apply process_csv_with_fst|].
  rewrite process_csv_with_log. fold st.
  rewrite Hst, process_chunk_state;
    [cbn [error_log]; by rewrite <- app_assoc|].
  eapply Forall_impl; [apply numbered_passing|].
  intros item. apply too_few_columns_nonempty.
Qed.

End One_batch.

(** ** The further theorems at concrete inputs *)

(** Two rows of different keys, in either order. *)
Lemma reordering_rows_reorders_report_witness :
  let header := ["Server"; "FullName"; "Length"] in
  let first := ["SRV1"; "\\SRV1\ShareA\Reports\2023\file1.txt"; "1000"] in
  let second := ["SRV1"; "\\SRV1\ShareB\Images\disk.img"; "2000"] in
  Permutation [first; second] [second; first]
  /\ option_Forall2 Permutation
       (fst (process_csv 4300 [header; first; second]))
       (fst (process_csv 4300 [header; second; first])).
Proof.
  intros header first second.
  assert (Permutation [first; second] [second; first]) as Hperm
    by apply perm_swap.
  split; [exact Hperm|].
  exact (proj2 (reordering_rows_reorders_report 4300 chunk_size header
                  [first; second] [second; first] Hperm)).
Defined.

(** Three rows of two keys: the report has a row for each key, in the
    order of their first rows, and counts the three files. *)
Lemma report_has_one_row_per_key_witness :
  let header := ["Server"; "FullName"; "Length"] in
  let first := ["SRV1"; "\\SRV1\ShareB\Images\disk.img"; "2000"] in
  let second := ["SRV1"; "\\SRV1\ShareA\Reports\2023\file1.txt"; "1000"] in
  let third := ["SRV1"; "\\SRV1\ShareB\Images\old\disk.img"; "500"] in
  exists report,
    fst (process_csv 4300 [header; first; second; third]) = Some report
    /\ List.NoDup (map (fun r => (Drive r, Top_Level_Folder r)) report).
Proof.
  intros header first second third. eexists.
  split; [vm_compute; reflexivity|].
  apply (report_has_one_row_per_key 4300 chunk_size
           [header; first; second; third]).
  vm_compute. reflexivity.
Defined.

Lemma report_rows_in_first_seen_order_witness :
  let header := ["Server"; "FullName"; "Length"] in
  let first := ["SRV1"; "\\SRV1\ShareB\Images\disk.img"; "2000"] in
  let second := ["SRV1"; "\\SRV1\ShareA\Reports\2023\file1.txt"; "1000"] in
  let third := ["SRV1"; "\\SRV1\ShareB\Images\old\disk.img"; "500"] in
  let input := [header; first; second; third] in
  first_seen (omap (key_of 4300) (passing (tail input)))
  = [("\\SRV1\ShareB", "Images"); ("\\SRV1\ShareA", "Reports")]
  /\ exists report,
       fst (process_csv 4300 input) = Some report
       /\ map (fun r => (Drive r, Top_Level_Folder r)) report
          = first_seen (omap (key_of 4300) (passing (tail input))).
Proof.
  intros header first second third input.
  split; [vm_compute; reflexivity|]. eexists.
  split; [vm_compute; reflexivity|].
  apply (report_rows_in_first_seen_order 4300 chunk_size input).
  vm_compute. reflexivity.
Defined.

Lemma report_counts_every_valid_row_once_witness :
  let header := ["Server"; "FullName"; "Length"] in
  let first := ["SRV1"; "\\SRV1\ShareB\Images\disk.img"; "2000"] in
  let second := ["SRV1"; "\\SRV1\ShareA\Reports\2023\file1.txt"; "1000"] in
  let third := ["SRV1"; "\\SRV1\ShareB\Images\old\disk.img"; "500"] in
  let input := [header; first; ["a"; "b"]; second; third] in
  length (List.filter (valid_row 4300) (tail input)) = 3%nat
  /\ exists report,
       fst (process_csv 4300 input) = Some report
       /\ sum_Z (map Number_of_Files report) = 3.
Proof.
  intros header first second third input.
  split; [vm_compute; reflexivity|]. eexists.
  split; [vm_compute; reflexivity|].
  apply (report_counts_every_valid_row_once 4300 chunk_size input).
  vm_compute. reflexivity.
Defined.

(** A chunk of two rows, cut between them. *)
Lemma process_chunk_in_two_calls_witness :
  let first := ["SRV1"; "\\SRV1\ShareA\Reports\2023\file1.txt"; "1000"] in
  let second := ["SRV2"; "no path here"; "2000"] in
  process_chunk 4300 [(2%nat, first); (3%nat, second)] initial "Unknown"
  = process_chunk 4300 [(3%nat, second)]
      (process_chunk 4300 [(2%nat, first)] initial "Unknown") "Unknown".
Proof.
  intros first second.
  apply (process_chunk_in_two_calls 4300 [(2%nat, first)] [(3%nat, second)]
           initial "Unknown" "Unknown").
  repeat constructor. discriminate.
Defined.

(** A path of three parts. *)
Lemma directory_and_leaf_make_the_path_witness :
  (2 <= length (Py.split backslash "share\docs\a.txt"))%nat
  /\ Py.join "\" (removelast (Py.split backslash "share\docs\a.txt"))
       +:+ "\" +:+ List.last (Py.split backslash "share\docs\a.txt") EmptyString
     = "share\docs\a.txt".
Proof.
  assert (2 <= length (Py.split backslash "share\docs\a.txt"))%nat as Hlen
    by (simpl; lia).
  split; [exact Hlen|].
  exact (proj2 (proj2 (directory_and_leaf_make_the_path "share\docs\a.txt"))
           Hlen).
Defined.

(** Four directory segments and a fifth. *)
Lemma deeper_path_keeps_shallower_entries_witness :
  let parts := ["host"; "share"; "top"; "sub1"] in
  (3 <= length parts)%nat
  /\ generated_subfolders (parts ++ ["sub2"])
     = generated_subfolders parts ++ ["sub1\sub2"].
Proof.
  intros parts.
  assert (3 <= length parts)%nat as Hlen by (simpl; lia).
  split; [exact Hlen|].
  exact (proj2 (deeper_path_keeps_shallower_entries parts []) "sub2" Hlen).
Defined.

(** A file right below the share. *)
Lemma unc_path_key_witness :
  let row := ["SRV1"; "\\SRV1\ShareA\file.txt"; "7"] in
  exists subs,
    extract 4300 row
    = Attributed ("\\SRV1\ShareA", "Not Applicable") 7 subs
    /\ (subs = None <-> (2 <= 3)%nat).
Proof.
  intros row.
  apply (unc_path_key 4300 ["SRV1"] ["7"] ["SRV1"; "ShareA"] "file.txt" 7).
  - repeat constructor.
  - discriminate.
  - discriminate.
  - reflexivity.
  - repeat constructor.
  - reflexivity.
Defined.

(** Digits in single quotes inside two pairs of double quotes. *)
Lemma quoted_digits_are_a_size_witness :
  Py.fullmatch_digits "2048" = true
  /\ is_size_field
       (replicate_char 2 dquote +:+ (replicate_char 1 squote +:+ "2048"
          +:+ replicate_char 1 squote) +:+ replicate_char 2 dquote) = true.
Proof.
  split; [reflexivity|].
  exact (proj1 (quoted_digits_are_a_size 4300 2 1 1 2 "2048" [] eq_refl)).
Defined.

(** One byte more than a GiB. *)
Lemma data_gb_is_monotone_witness :
  0 <= 2 ^ 57 <= 144115188210073601
  /\ data_gb 144115188210073601 = Some 13421772812
  /\ exists gb, data_gb (2 ^ 57) = Some gb /\ gb <= 13421772812.
Proof.
  assert (0 <= 2 ^ 57 <= 144115188210073601) as Hle by (simpl; lia).
  assert (data_gb 144115188210073601 = Some 13421772812) as Hgb
    by (vm_compute; reflexivity).
  split; [exact Hle|]. split; [exact Hgb|].
  exact (data_gb_is_monotone (2 ^ 57) 144115188210073601 13421772812 Hle Hgb).
Defined.

(** A path field with a blank on either side. *)
Lemma blanks_around_the_path_are_ignored_witness :
  extract 4300 ["SRV1"; " \\SRV1\ShareA\file.txt "; "7"]
  = extract 4300 ["SRV1"; "\\SRV1\ShareA\file.txt"; "7"].
Proof.
  exact (proj1 (blanks_around_the_path_are_ignored 4300 ["SRV1"] ["7"]
                  " " "\\SRV1\ShareA\file.txt" " " eq_refl eq_refl eq_refl)).
Defined.

(** Three rows, one of them short, against the batch size of the script. *)
Lemma small_input_is_one_batch_witness :
  let input :=
    [["Server"; "FullName"; "Length"];
     ["SRV1"; "no path here"; "1"];
     ["a"; "b"];
     ["SRV1"; "\\SRV1\ShareA\Reports\2023\file1.txt"; "1000"]] in
  Z.of_nat (length (passing (tail input))) < chunk_size
  /\ fatal_lines (fst (process_csv 4300 input)) = []
  /\ error_log (snd (process_csv 4300 input))
     = [Skipped 3 TooFewColumns; Skipped 2 MissingFullName]
         ++ fatal_lines (fst (process_csv 4300 input)).
Proof.
  intros input.
  assert (Z.of_nat (length (passing (tail input))) < chunk_size) as Hlen
    by reflexivity.
  split; [exact Hlen|]. split; [vm_compute; reflexivity|].
  exact (proj2 (proj2 (proj2
           (small_input_is_one_batch 4300 chunk_size input Hlen)))).
Defined.
